(** * indices.py: index and item ranges over sequences (PEP 212, PEP 279)

    A shallow embedding of [indices], [xindices], [irange], [xirange] and
    [enumerate] of indices.py (Python 2.2), with the builtins they call
    ([len], [min], [range], [xrange], subscription, [iter], [next]) and the
    generator protocol written out as explicit state machines. *)

From Stdlib Require Import List ZArith Lia Bool.
From Stdlib Require Import Permutation.
From Stdlib Require String Ascii.
Import ListNotations String.StringSyntax.
Delimit Scope string_scope with string.
Open Scope Z_scope.
Set Warnings "-register-all".

(** ** Python values, sequence objects and exceptions *)

(** The values the module builds and returns.  A one-character [VStr] is
    what subscripting a [str] yields. *)
Inductive pyval : Type :=
| VNone
| VInt (z : Z)
| VStr (s : String.string)
| VTuple (items : list pyval)
| VList (items : list pyval).
Arguments VStr s%_string.

(** Sequence arguments are passed by reference: a [loc] names a sequence
    object and the [heap] gives its current items.  The caller may change the
    heap between two requests made to a generator. *)
Definition loc := nat.
Definition heap := loc -> list pyval.

Definition heap_set (h : heap) (r : loc) (items : list pyval) : heap :=
  fun r' => if Nat.eqb r' r then items else h r'.

(** The items of a [str] object, as subscription returns them. *)
Fixpoint str_items (s : String.string) : list pyval :=
  match s with
  | String.EmptyString => []
  | String.String c s' => VStr (String.String c String.EmptyString) :: str_items s'
  end.

Inductive exn : Type := StopIteration | IndexError | ValueError | TypeError.

Inductive res (X : Type) : Type :=
| Ok (x : X)
| Raise (e : exn).
Arguments Ok {X} x.
Arguments Raise {X} e.

(** Every operation the module performs on one of its arguments is logged. *)
Inductive event : Type :=
| EvLen (r : loc)               (* len(sequence) *)
| EvGetItem (r : loc) (i : Z)   (* sequence[i] *)
| EvIter                        (* iter(sequence) *)
| EvNext.                       (* it.next() *)

Definition is_getitem (e : event) : bool :=
  match e with EvGetItem _ _ => true | _ => false end.

Definition is_len (e : event) : bool :=
  match e with EvLen _ => true | _ => false end.

(** ** The effect monad: read the heap, log the operations, maybe raise *)

Definition M (X : Type) : Type := heap -> list event * res X.

Definition ret {X} (x : X) : M X := fun _ => ([], Ok x).

Definition raise {X} (e : exn) : M X := fun _ => ([], Raise e).

Definition bind {X Y} (m : M X) (f : X -> M Y) : M Y :=
  fun h =>
    match m h with
    | (t, Ok x) => let (t', r) := f x h in (t ++ t', r)
    | (t, Raise e) => (t, Raise e)
    end.

Notation "x <- m ;; k" := (bind m (fun x => k))
  (at level 61, m at next level, right associativity).

(** [[f(x) for x in xs]] *)
Fixpoint list_comp {X Y} (f : X -> M Y) (xs : list X) : M (list Y) :=
  match xs with
  | [] => ret []
  | x :: xs' => y <- f x ;; ys <- list_comp f xs' ;; ret (y :: ys)
  end.

(** ** Builtins *)

(** [len(sequence)] *)
Definition py_len (r : loc) : M Z :=
  fun h => ([EvLen r], Ok (Z.of_nat (length (h r)))).

(** [sequence[i]]: a negative index counts from the end, an index out of
    range raises IndexError. *)
Definition py_getitem (r : loc) (i : Z) : M pyval :=
  fun h =>
    let n := Z.of_nat (length (h r)) in
    let j := if i <? 0 then i + n else i in
    ([EvGetItem r i],
     if (0 <=? j) && (j <? n) then
       match nth_error (h r) (Z.to_nat j) with
       | Some v => Ok v
       | None => Raise IndexError
       end
     else Raise IndexError).

(** [min(list)]: ValueError on an empty list. *)
Definition py_min (xs : list Z) : M Z :=
  match xs with
  | [] => raise ValueError
  | x :: rest => ret (fold_left Z.min rest x)
  end.

(** [range(n)]: the list 0, 1, ..., n-1, empty when n <= 0. *)
Definition range (n : Z) : list Z := map Z.of_nat (seq 0 (Z.to_nat n)).

(** [xrange(n)] is an object that only remembers its length; every [iter] on
    it makes a new iterator that starts at 0. *)
Record xrange_obj : Type := XRange { xr_len : Z }.

Definition xrange (n : Z) : xrange_obj := XRange (Z.max 0 n).

Record rangeiter : Type := RangeIter { ri_index : Z; ri_len : Z }.

Definition xrange_iter (x : xrange_obj) : rangeiter :=
  RangeIter 0 (xr_len x).

Definition rangeiter_next (it : rangeiter) : res Z * rangeiter :=
  if ri_index it <? ri_len it
  then (Ok (ri_index it), RangeIter (ri_index it + 1) (ri_len it))
  else (Raise StopIteration, it).

(** ** indices and xindices *)

Definition indices (sequences : list loc) : M pyval :=
  if (length sequences =? 0)%nat then ret (VList (map VInt (range 0)))
  else
    lens <- list_comp py_len sequences ;;
    m <- py_min lens ;;
    ret (VList (map VInt (range m))).

Definition xindices (sequences : list loc) : M xrange_obj :=
  if (length sequences =? 0)%nat then ret (xrange 0)
  else
    lens <- list_comp py_len sequences ;;
    m <- py_min lens ;;
    ret (xrange m).

(** ** irange *)

(** [tuple([i] + [sequence[i] for sequence in sequences])] *)
Definition row (sequences : list loc) (i : Z) : M pyval :=
  items <- list_comp (fun sequence => py_getitem sequence i) sequences ;;
  ret (VTuple ([VInt i] ++ items)).

(** With no sequence the [if] is skipped and the function falls off its end:
    it returns None. *)
Definition irange (sequences : list loc) : M pyval :=
  if (0 <? length sequences)%nat then
    lens <- list_comp py_len sequences ;;
    l <- py_min lens ;;
    rows <- list_comp (row sequences) (range l) ;;
    ret (VList rows)
  else ret VNone.

(** ** The iteration protocol *)

(** [it.next()] for an iterator of type [G] producing [Item]s: what it logs,
    the item or the exception, and the iterator afterwards. *)
Class Iterator (G Item : Type) : Type :=
  next : G -> heap -> list event * res Item * G.

(** [iter(o)]: TypeError when [o] is not iterable.  [advanced o it] is the
    object [o] once the iterator that [iter(o)] gave has moved on to [it]:
    [it] itself when [iter(o)] is [o] (a generator), [o] unchanged when
    [iter(o)] is a new object with a cursor of its own. *)
Class Iterable (Obj It : Type) : Type := {
  py_iter : Obj -> M It;
  advanced : Obj -> It -> Obj
}.

#[global] Instance rangeiter_Iterator : Iterator rangeiter Z :=
  fun it _ => let (r, it') := rangeiter_next it in ([], r, it').

#[global] Instance xrange_Iterable : Iterable xrange_obj rangeiter := {
  py_iter x := ret (xrange_iter x);
  advanced x _ := x
}.

(** What a [for] loop or [list(it)] does with an iterator: request items until
    an exception comes out.  [env k] is the heap in force at the [k]-th
    request; the result is the items, the exception that ended the pass
    ([None]: out of fuel) and the iterator as the pass left it. *)
Fixpoint drain {G Item} `{Iterator G Item}
    (fuel : nat) (env : nat -> heap) (k : nat) (g : G)
    : list Item * option exn * G :=
  match fuel with
  | O => ([], None, g)
  | S fuel' =>
      match next g (env k) with
      | (_, Ok v, g') =>
          let '(vs, e, g'') := drain fuel' env (S k) g' in (v :: vs, e, g'')
      | (_, Raise e, g') => ([], Some e, g')
      end
  end.

(** Requests made one after the other, under the heaps [hs]. *)
Fixpoint requests {G Item} `{Iterator G Item} (hs : list heap) (g : G)
    : list (res Item) :=
  match hs with
  | [] => []
  | h :: hs' => let '(_, r, g') := next g h in r :: requests hs' g'
  end.

(** Two [for] loops in a row over the same object, the heap unchanged: what
    the second one gets ([None]: [iter] raised). *)
Definition second_pass {Obj It Item} `{Iterable Obj It} `{Iterator It Item}
    (fuel : nat) (env : nat -> heap) (o : Obj)
    : option (list Item * option exn) :=
  match py_iter o (env 0%nat) with
  | (_, Ok it) =>
      let '(_, _, it') := drain fuel env 0 it in
      match py_iter (advanced o it') (env 0%nat) with
      | (_, Ok it2) => Some (fst (drain fuel env 0 it2))
      | (_, Raise _) => None
      end
  | (_, Raise _) => None
  end.

(** The logs of the successive requests of the same pass. *)
Fixpoint drain_log {G Item} `{Iterator G Item}
    (fuel : nat) (env : nat -> heap) (k : nat) (g : G)
    : list (list event) :=
  match fuel with
  | O => []
  | S fuel' =>
      match next g (env k) with
      | (t, Ok _, g') => t :: drain_log fuel' env (S k) g'
      | (t, Raise _, _) => [t]
      end
  end.

(** ** xirange *)

(** [xirange] contains a [yield]: calling it binds the arguments in a new
    frame and returns the generator; no statement of the body runs before the
    first request.  A suspended frame keeps [sequences] and the iterator of
    the [for] loop over [xrange(l)] ([l] and [i] are not read again after the
    yield: [i] is assigned anew from the iterator). *)
Inductive xirange_gen : Type :=
| XI_created (sequences : list loc)
| XI_suspended (sequences : list loc) (it : rangeiter)
| XI_finished.

Definition xirange (sequences : list loc) : M xirange_gen :=
  ret (XI_created sequences).

(** One turn of [for i in xrange(l): yield tuple(...)], entered at the top of
    the loop.  An exception that escapes the body finishes the generator. *)
Definition xirange_loop (sequences : list loc) (it : rangeiter) (h : heap)
    : list event * res pyval * xirange_gen :=
  match rangeiter_next it with
  | (Ok i, it') =>
      match row sequences i h with
      | (t, Ok v) => (t, Ok v, XI_suspended sequences it')
      | (t, Raise e) => (t, Raise e, XI_finished)
      end
  | (Raise e, _) => ([], Raise e, XI_finished)
  end.

Definition xirange_next (g : xirange_gen) (h : heap)
    : list event * res pyval * xirange_gen :=
  match g with
  | XI_created sequences =>
      if (0 <? length sequences)%nat then
        match (lens <- list_comp py_len sequences ;; py_min lens) h with
        | (t, Ok l) =>
            let '(t', r, g') :=
              xirange_loop sequences (xrange_iter (xrange l)) h in
            (t ++ t', r, g')
        | (t, Raise e) => (t, Raise e, XI_finished)
        end
      else ([], Raise StopIteration, XI_finished)
  | XI_suspended sequences it => xirange_loop sequences it h
  | XI_finished => ([], Raise StopIteration, XI_finished)
  end.

#[global] Instance xirange_Iterator : Iterator xirange_gen pyval :=
  xirange_next.

(** [iter] on a generator returns the generator itself. *)
#[global] Instance xirange_Iterable : Iterable xirange_gen xirange_gen := {
  py_iter g := ret g;
  advanced _ g := g
}.

(** ** enumerate *)

Section Enumerate.

(** The argument is any object; [iter] gives its iterator, or raises. *)
Context {Obj It : Type} `{Iterable Obj It} `{Iterator It pyval}.

Inductive enumerate_gen : Type :=
| En_created (sequence : Obj)
| En_suspended (i : Z) (it : It)
| En_finished.

Definition enumerate (sequence : Obj) : M enumerate_gen :=
  ret (En_created sequence).

(** [yield (i, it.next())], entered at the top of [while 1]. *)
Definition enumerate_loop (i : Z) (it : It) (h : heap)
    : list event * res pyval * enumerate_gen :=
  match next it h with
  | (t, Ok v, it') => (EvNext :: t, Ok (VTuple [VInt i; v]), En_suspended i it')
  | (t, Raise e, _) => (EvNext :: t, Raise e, En_finished)
  end.

Definition enumerate_next (g : enumerate_gen) (h : heap)
    : list event * res pyval * enumerate_gen :=
  match g with
  | En_created sequence =>
      (* i = 0; it = iter(sequence) *)
      match py_iter sequence h with
      | (t, Ok it) =>
          let '(t', r, g') := enumerate_loop 0 it h in
          (EvIter :: t ++ t', r, g')
      | (t, Raise e) => (EvIter :: t, Raise e, En_finished)
      end
  | En_suspended i it =>
      (* resumed after the yield: i += 1, then the loop again *)
      enumerate_loop (i + 1) it h
  | En_finished => ([], Raise StopIteration, En_finished)
  end.

#[global] Instance enumerate_Iterator : Iterator enumerate_gen pyval :=
  enumerate_next.

#[global] Instance enumerate_Iterable
  : Iterable enumerate_gen enumerate_gen := {
  py_iter g := ret g;
  advanced _ g := g
}.

End Enumerate.

Arguments enumerate_gen : clear implicits.

(** ** Concrete objects to enumerate: lists and strings in the heap, ints *)

Inductive pyobj : Type :=
| OSeq (r : loc)     (* a list or str object *)
| OInt (z : Z).      (* an int: not iterable *)

(** The iterator of a list: it reads the list as it is at each request and,
    once past the end, drops its reference and stays exhausted. *)
Record listiter : Type := ListIter { li_seq : option loc; li_index : nat }.

Definition listiter_next (it : listiter) (h : heap)
    : list event * res pyval * listiter :=
  match li_seq it with
  | None => ([], Raise StopIteration, it)
  | Some r =>
      match nth_error (h r) (li_index it) with
      | Some v => ([], Ok v, ListIter (Some r) (S (li_index it)))
      | None => ([], Raise StopIteration, ListIter None (li_index it))
      end
  end.

#[global] Instance listiter_Iterator : Iterator listiter pyval :=
  listiter_next.

#[global] Instance pyobj_Iterable : Iterable pyobj listiter := {
  py_iter o :=
    match o with
    | OSeq r => ret (ListIter (Some r) 0)
    | OInt _ => raise TypeError
    end;
  advanced o _ := o
}.

(** ** Specification-side notions *)

(** The length common to all the sequences: the least of their lengths in
    the heap [h], and 0 when there is no sequence. *)
Definition common_len (h : heap) (sequences : list loc) : nat :=
  match sequences with
  | [] => 0%nat
  | r :: rs =>
      fold_left Nat.min (map (fun r' => length (h r')) rs)
                (length (h r))
  end.

(** The tuple (i, S1[i], ..., Sn[i]) read in the heap [h]. *)
Definition row_at (h : heap) (sequences : list loc) (i : nat) : pyval :=
  VTuple (VInt (Z.of_nat i) :: map (fun r => nth i (h r) VNone) sequences).

(** The heap of the docstrings' example: [[1,2,3]] at 0 and ["ab"] at 1. *)
Definition heap_doc : heap :=
  heap_set (heap_set (fun _ => []) 0%nat [VInt 1; VInt 2; VInt 3])
           1%nat (str_items "ab"%string).

(** A heap that never changes. *)
Definition still (h : heap) : nat -> heap := fun _ => h.

(** What is said of the list [rows] returned by [irange]: it has the common
    length, and its [i]-th entry is a tuple of n+1 components, [i] first and
    then the [i]-th item of each sequence, in the order of the arguments. *)
Definition irange_rows_ok (h : heap) (sequences : list loc)
    (rows : list pyval) : Prop :=
  length rows = common_len h sequences /\
  forall i, (i < common_len h sequences)%nat ->
    exists items,
      nth_error rows i = Some (VTuple items) /\
      length items = S (length sequences) /\
      nth_error items 0 = Some (VInt (Z.of_nat i)) /\
      forall k r, nth_error sequences k = Some r ->
        exists v, nth_error (h r) i = Some v /\
                  nth_error items (S k) = Some v.

Definition irange_returns_rows (h : heap) (sequences : list loc) : Prop :=
  exists rows,
    snd (irange sequences h) = Ok (VList rows) /\
    irange_rows_ok h sequences rows.

(** [xirange] would bind its bound when the generator is made: whatever
    happens to the heap afterwards, a pass yields no more items than the
    common length had at that moment. *)
Definition xirange_bound_at_construction : Prop :=
  forall (sequences : list loc) (h0 : heap) (env : nat -> heap)
         (g : xirange_gen) (fuel : nat),
    snd (xirange sequences h0) = Ok g ->
    (length (fst (fst (drain fuel env 0 g))) <= common_len h0 sequences)%nat.

(** A list of two items at 0, which then grows to three. *)
Definition heap_two : heap := heap_set (fun _ => []) 0%nat [VInt 1; VInt 2].
Definition heap_three : heap := heap_set heap_two 0%nat [VInt 1; VInt 2; VInt 3].

(** Draining the lazy function gives what the eager one returns. *)
Definition xindices_drains_to_indices (fuel : nat) (h : heap)
    (sequences : list loc) : Prop :=
  exists x it ns,
    snd (xindices sequences h) = Ok x /\
    snd (py_iter x h) = Ok it /\
    fst (drain fuel (still h) 0 it) = (ns, Some StopIteration) /\
    snd (indices sequences h) = Ok (VList (map VInt ns)).

Definition xirange_drains_to_irange (fuel : nat) (h : heap)
    (sequences : list loc) : Prop :=
  exists g rows,
    snd (xirange sequences h) = Ok g /\
    fst (drain fuel (still h) 0 g) = (rows, Some StopIteration) /\
    snd (irange sequences h) = Ok (VList rows).

(** An iterator that answers StopIteration to every further request. *)
Definition stays_exhausted {G Item} `{Iterator G Item} (g : G) : Prop :=
  forall hs : list heap,
    requests hs g = map (fun _ => Raise StopIteration) hs.

(** An object that a second loop finds empty once a first loop has come to
    its end. *)
Definition single_pass {Obj It Item} `{Iterable Obj It} `{Iterator It Item}
    (o : Obj) : Prop :=
  forall (fuel : nat) (h : heap) (it it' : It) (items : list Item),
    snd (py_iter o h) = Ok it ->
    drain fuel (still h) 0 it = (items, Some StopIteration, it') ->
    second_pass fuel (still h) o = Some ([], Some StopIteration).

(** The iterator [it] gives the items [es], one per request, and then
    StopIteration, the heap being [h] throughout. *)
Inductive yields_then_stops {It} `{Iterator It pyval} (h : heap)
    : It -> list pyval -> Prop :=
| yts_stop it t it' :
    next it h = (t, Raise StopIteration, it') ->
    yields_then_stops h it []
| yts_item it t v it' es :
    next it h = (t, Ok v, it') ->
    yields_then_stops h it' es ->
    yields_then_stops h it (v :: es).

(** The pairs (i, e0), (i+1, e1), ... *)
Fixpoint number_from (i : Z) (es : list pyval) : list pyval :=
  match es with
  | [] => []
  | e :: es' => VTuple [VInt i; e] :: number_from (i + 1) es'
  end.

(** The list [['x','y','z']] at 0. *)
Definition heap_xyz : heap :=
  heap_set (fun _ => []) 0%nat [VStr "x"; VStr "y"; VStr "z"].

(** The first component of a tuple. *)
Definition tuple_head (v : pyval) : option pyval :=
  match v with
  | VTuple (x :: _) => Some x
  | _ => None
  end.

(** [zip(l1, ..., ln)] on the items of its arguments: the rows
    (l1[i], ..., ln[i]) for the indices all the lists have; the empty list
    when there is no argument. *)
Fixpoint zipn (ls : list (list pyval)) : list (list pyval) :=
  match ls with
  | [] => []
  | l :: rest =>
      match rest with
      | [] => map (fun x => [x]) l
      | _ :: _ => map (fun p => fst p :: snd p) (combine l (zipn rest))
      end
  end.

(** The iterator [it] gives the items [es], one per request, and then
    raises [e], the heap being [h] throughout. *)
Inductive yields_then_raises {It} `{Iterator It pyval} (h : heap) (e : exn)
    : It -> list pyval -> Prop :=
| ytr_raise it t it' :
    next it h = (t, Raise e, it') ->
    yields_then_raises h e it []
| ytr_item it t v it' es :
    next it h = (t, Ok v, it') ->
    yields_then_raises h e it' es ->
    yields_then_raises h e it (v :: es).

(** An iterator written by a caller: it gives the items it was made with,
    then raises the exception it was made with.  It is its own [iter]. *)
Record failing_iter : Type :=
  FailingIter { fi_items : list pyval; fi_exn : exn }.

#[global] Instance failing_Iterator : Iterator failing_iter pyval :=
  fun it _ =>
    match fi_items it with
    | [] => ([], Raise (fi_exn it), it)
    | v :: rest => ([], Ok v, FailingIter rest (fi_exn it))
    end.

#[global] Instance failing_Iterable : Iterable failing_iter failing_iter := {
  py_iter it := ret it;
  advanced _ it := it
}.

(** A heap that holds [[1,2,3]] at 0 for the first request and [[1]] from
    the second request on. *)
Definition env_shrinking : nat -> heap :=
  fun k => if (k =? 0)%nat then heap_three
           else heap_set heap_three 0%nat [VInt 1].

(** ** Running the monad *)

Lemma bind_ok {X Y} (m : M X) (f : X -> M Y) h t x :
  m h = (t, Ok x) ->
  bind m f h = (t ++ fst (f x h), snd (f x h)).
Proof.
  intros Hm. unfold bind. rewrite Hm. now destruct (f x h).
Qed.

Lemma bind_raise {X Y} (m : M X) (f : X -> M Y) h t e :
  m h = (t, Raise e) -> bind m f h = (t, Raise e).
Proof.
  intros Hm. unfold bind. now rewrite Hm.
Qed.

Lemma list_comp_len h sequences :
  list_comp py_len sequences h =
  (map EvLen sequences,
   Ok (map (fun r => Z.of_nat (length (h r))) sequences)).
Proof.
  induction sequences as [|r rs IH]; [reflexivity|].
  cbn [list_comp].
  erewrite bind_ok by reflexivity.
  erewrite bind_ok by exact IH.
  cbn [ret fst snd app map]. now rewrite app_nil_r.
Qed.

(** ** The least length *)

Lemma fold_min_of_nat (l : list nat) (a : nat) :
  fold_left Z.min (map Z.of_nat l) (Z.of_nat a) =
  Z.of_nat (fold_left Nat.min l a).
Proof.
  revert a. induction l as [|x l IH]; intros a; [reflexivity|].
  cbn [map fold_left]. rewrite <- Nat2Z.inj_min. apply IH.
Qed.

Lemma fold_min_le_init (l : list nat) (a : nat) :
  (fold_left Nat.min l a <= a)%nat.
Proof.
  revert a. induction l as [|x l IH]; intros a; cbn [fold_left]; [lia|].
  specialize (IH (Nat.min a x)). lia.
Qed.

Lemma fold_min_le_in (l : list nat) (a x : nat) :
  In x l -> (fold_left Nat.min l a <= x)%nat.
Proof.
  revert a. induction l as [|y l IH]; intros a Hin; [contradiction|].
  cbn [fold_left]. destruct Hin as [->|Hin].
  - pose proof (fold_min_le_init l (Nat.min a x)). lia.
  - now apply IH.
Qed.

Lemma fold_min_attained (l : list nat) (a : nat) :
  fold_left Nat.min l a = a \/ In (fold_left Nat.min l a) l.
Proof.
  revert a. induction l as [|y l IH]; intros a; [now left|].
  cbn [fold_left]. destruct (IH (Nat.min a y)) as [E|E].
  - rewrite E. destruct (Nat.min_spec a y) as [[_ ->]|[_ ->]];
      [now left | right; now left].
  - right. now right.
Qed.

Lemma common_len_le h sequences r :
  In r sequences -> (common_len h sequences <= length (h r))%nat.
Proof.
  destruct sequences as [|r0 rs]; [contradiction|].
  intros [->|Hin]; cbn [common_len].
  - apply fold_min_le_init.
  - apply fold_min_le_in. now apply (in_map (fun r' => length (h r'))).
Qed.

Lemma common_len_attained h sequences :
  sequences <> [] ->
  exists r, In r sequences /\ common_len h sequences = length (h r).
Proof.
  destruct sequences as [|r0 rs]; [congruence|]. intros _.
  cbn [common_len].
  destruct (fold_min_attained (map (fun r' => length (h r')) rs)
                              (length (h r0))) as [E|E].
  - exists r0. split; [now left | exact E].
  - apply in_map_iff in E. destruct E as (r & Er & Hr).
    exists r. split; [now right | now rewrite Er].
Qed.

(** [min([len(sequence) for sequence in sequences])] with at least one
    sequence: every length is asked once, in order, and the least comes out. *)
Lemma len_min_run h sequences :
  sequences <> [] ->
  (lens <- list_comp py_len sequences ;; py_min lens) h =
  (map EvLen sequences, Ok (Z.of_nat (common_len h sequences))).
Proof.
  intros Hne.
  erewrite bind_ok by apply list_comp_len.
  destruct sequences as [|r rs]; [congruence|].
  cbn [map py_min ret fst snd common_len].
  rewrite app_nil_r.
  rewrite <- fold_min_of_nat, map_map. reflexivity.
Qed.

Lemma length_zero_eqb {X} (l : list X) :
  (length l =? 0)%nat = match l with [] => true | _ => false end.
Proof. now destruct l. Qed.

Lemma length_pos_ltb {X} (l : list X) :
  (0 <? length l)%nat = match l with [] => false | _ => true end.
Proof. now destruct l. Qed.

Lemma range_of_nat (m : nat) : range (Z.of_nat m) = map Z.of_nat (seq 0 m).
Proof. unfold range. now rewrite Nat2Z.id. Qed.

Lemma indices_run h sequences :
  indices sequences h =
  (map EvLen sequences,
   Ok (VList (map VInt (map Z.of_nat (seq 0 (common_len h sequences)))))).
Proof.
  unfold indices. rewrite length_zero_eqb.
  destruct sequences as [|r rs] eqn:E; [reflexivity|]. rewrite <- E.
  assert (Hne : sequences <> []) by (rewrite E; discriminate).
  pose proof (len_min_run h sequences Hne) as Hrun.
  unfold bind in Hrun |- *.
  destruct (list_comp py_len sequences h) as [t [lens|e]]; [|discriminate].
  destruct (py_min lens h) as [t' [m|e]] eqn:Hmin;
    inversion Hrun; subst.
  cbn [ret]. rewrite range_of_nat. now rewrite app_nil_r.
Qed.

Lemma xindices_run h sequences :
  xindices sequences h =
  (map EvLen sequences, Ok (XRange (Z.of_nat (common_len h sequences)))).
Proof.
  unfold xindices. rewrite length_zero_eqb.
  destruct sequences as [|r rs] eqn:E; [reflexivity|]. rewrite <- E.
  assert (Hne : sequences <> []) by (rewrite E; discriminate).
  pose proof (len_min_run h sequences Hne) as Hrun.
  unfold bind in Hrun |- *.
  destruct (list_comp py_len sequences h) as [t [lens|e]]; [|discriminate].
  destruct (py_min lens h) as [t' [m|e]] eqn:Hmin;
    inversion Hrun; subst.
  cbn [ret]. unfold xrange. rewrite Z.max_r by lia.
  now rewrite app_nil_r.
Qed.

(** ** Reading one row *)

Lemma getitem_run h r (k : nat) :
  (k < length (h r))%nat ->
  py_getitem r (Z.of_nat k) h =
  ([EvGetItem r (Z.of_nat k)], Ok (nth k (h r) VNone)).
Proof.
  intros Hk. unfold py_getitem. cbv zeta.
  replace (Z.of_nat k <? 0) with false by (symmetry; apply Z.ltb_ge; lia).
  replace (0 <=? Z.of_nat k) with true by (symmetry; apply Z.leb_le; lia).
  replace (Z.of_nat k <? Z.of_nat (length (h r))) with true
    by (symmetry; apply Z.ltb_lt; lia).
  cbn [andb]. rewrite Nat2Z.id.
  now rewrite (nth_error_nth' (h r) VNone Hk).
Qed.

Lemma getitems_run h sequences (k : nat) :
  (forall r, In r sequences -> (k < length (h r))%nat) ->
  list_comp (fun sequence => py_getitem sequence (Z.of_nat k)) sequences h =
  (map (fun r => EvGetItem r (Z.of_nat k)) sequences,
   Ok (map (fun r => nth k (h r) VNone) sequences)).
Proof.
  induction sequences as [|r rs IH]; intros Hk; [reflexivity|].
  cbn [list_comp].
  erewrite bind_ok by (apply getitem_run, Hk; now left).
  erewrite bind_ok by (apply IH; intros r' Hr'; apply Hk; now right).
  cbn [ret fst snd app map]. now rewrite app_nil_r.
Qed.

Lemma row_run h sequences (k : nat) :
  (forall r, In r sequences -> (k < length (h r))%nat) ->
  row sequences (Z.of_nat k) h =
  (map (fun r => EvGetItem r (Z.of_nat k)) sequences,
   Ok (row_at h sequences k)).
Proof.
  intros Hk. unfold row.
  erewrite bind_ok by (now apply getitems_run).
  cbn [ret fst snd app]. now rewrite app_nil_r.
Qed.

(** Whatever happens, building the row for [i] only subscripts the
    sequences at [i]. *)
Lemma getitems_log h sequences i e :
  In e (fst (list_comp (fun sequence => py_getitem sequence i) sequences h)) ->
  exists r, In r sequences /\ e = EvGetItem r i.
Proof.
  induction sequences as [|r rs IH]; cbn [list_comp]; [contradiction|].
  unfold bind at 1.
  destruct (py_getitem r i h) as [t [v|ex]] eqn:Hget;
    unfold py_getitem in Hget; inversion Hget; subst t.
  - unfold bind at 1.
    destruct (list_comp (fun sequence => py_getitem sequence i) rs h)
      as [t' [vs|ex]]; cbn [ret fst app In] in *.
    + rewrite app_nil_r. intros [<-|Hin].
      * exists r. split; [now left | reflexivity].
      * destruct (IH Hin) as (r' & Hr' & ->). exists r'. split; [now right|easy].
    + intros [<-|Hin].
      * exists r. split; [now left | reflexivity].
      * destruct (IH Hin) as (r' & Hr' & ->). exists r'. split; [now right|easy].
  - cbn [fst In]. intros [<-|[]]. exists r. split; [now left | reflexivity].
Qed.

Lemma row_log h sequences i e :
  In e (fst (row sequences i h)) ->
  exists r, In r sequences /\ e = EvGetItem r i.
Proof.
  unfold row, bind.
  pose proof (getitems_log h sequences i e) as Hlog.
  destruct (list_comp (fun sequence => py_getitem sequence i) sequences h)
    as [t [vs|ex]]; cbn [ret fst] in *.
  - now rewrite app_nil_r.
  - exact Hlog.
Qed.

Lemma rows_run h sequences (a n : nat) :
  (forall r, In r sequences -> (a + n <= length (h r))%nat) ->
  list_comp (row sequences) (map Z.of_nat (seq a n)) h =
  (concat (map (fun k => map (fun r => EvGetItem r (Z.of_nat k)) sequences)
               (seq a n)),
   Ok (map (row_at h sequences) (seq a n))).
Proof.
  revert a. induction n as [|n IH]; intros a Hlen; [reflexivity|].
  cbn [seq map list_comp concat].
  erewrite bind_ok
    by (apply row_run; intros r Hr; specialize (Hlen r Hr); lia).
  erewrite bind_ok
    by (apply IH; intros r Hr; specialize (Hlen r Hr); lia).
  cbn [ret fst snd]. now rewrite app_nil_r.
Qed.

Lemma irange_run h sequences :
  sequences <> [] ->
  irange sequences h =
  (map EvLen sequences ++
   concat (map (fun k => map (fun r => EvGetItem r (Z.of_nat k)) sequences)
               (seq 0 (common_len h sequences))),
   Ok (VList (map (row_at h sequences) (seq 0 (common_len h sequences))))).
Proof.
  intros Hne. unfold irange. rewrite length_pos_ltb.
  destruct sequences as [|r rs] eqn:E; [congruence|]. rewrite <- E in *.
  pose proof (len_min_run h sequences Hne) as Hrun.
  unfold bind at 1 in Hrun. unfold bind at 1.
  destruct (list_comp py_len sequences h) as [t [lens|e]]; [|discriminate].
  destruct (py_min lens h) as [t' [m|e]] eqn:Hmin; [|discriminate].
  injection Hrun as Ht Hm. subst m.
  unfold bind at 1. rewrite Hmin. rewrite range_of_nat.
  erewrite bind_ok
    by (apply rows_run; intros r' Hr'; now apply common_len_le).
  cbn [ret fst snd]. rewrite app_nil_r, app_assoc, Ht. reflexivity.
Qed.

(** ** The eager functions *)

(** C1. [indices] called with any number of sequences returns the list
    0, 1, ..., m-1, where m is the least of the lengths of the sequences, and
    0 when there is none: m is below every length and is one of them.  With
    no argument the call returns the empty list and raises nothing. *)
Theorem indices_spec : forall (h : heap) (sequences : list loc),
  snd (indices sequences h) =
    Ok (VList (map VInt (map Z.of_nat (seq 0 (common_len h sequences))))) /\
  (forall r, In r sequences -> (common_len h sequences <= length (h r))%nat) /\
  (sequences = [] \/
   exists r, In r sequences /\ common_len h sequences = length (h r)) /\
  common_len h [] = 0%nat /\
  indices [] h = ([], Ok (VList [])).
Proof.
  intros h sequences. rewrite indices_run. cbn [snd].
  split; [reflexivity|].
  split; [intros r; apply common_len_le|].
  split; [|split; reflexivity].
  destruct sequences as [|r rs]; [now left|].
  right. apply common_len_attained. discriminate.
Qed.

Lemma row_at_ok h sequences i :
  (i < common_len h sequences)%nat ->
  exists items,
    row_at h sequences i = VTuple items /\
    length items = S (length sequences) /\
    nth_error items 0 = Some (VInt (Z.of_nat i)) /\
    forall k r, nth_error sequences k = Some r ->
      exists v, nth_error (h r) i = Some v /\ nth_error items (S k) = Some v.
Proof.
  intros Hi. eexists. split; [reflexivity|].
  split; [cbn [length]; now rewrite length_map|].
  split; [reflexivity|].
  intros k r Hk. exists (nth i (h r) VNone).
  assert (Hin : In r sequences) by (eapply nth_error_In; eassumption).
  pose proof (common_len_le h sequences r Hin) as Hle.
  split.
  - apply nth_error_nth'. lia.
  - cbn [nth_error].
    now rewrite (nth_error_map (fun r0 => nth i (h r0) VNone) k sequences), Hk.
Qed.

(** C2, amended.  [irange] called with at least one sequence returns a list
    of m tuples, m the least length; the tuple at position [i] has n+1
    components, [i] first and then S1[i], ..., Sn[i].  In particular
    [irange([1,2,3], "ab") == [(0,1,'a'), (1,2,'b')]]. *)
Theorem irange_spec : forall (h : heap) (sequences : list loc),
  sequences <> [] ->
  irange_returns_rows h sequences /\
  snd (irange [0%nat; 1%nat] heap_doc) =
    Ok (VList [VTuple [VInt 0; VInt 1; VStr "a"];
               VTuple [VInt 1; VInt 2; VStr "b"]]).
Proof.
  intros h sequences Hne. split; [|reflexivity].
  exists (map (row_at h sequences) (seq 0 (common_len h sequences))).
  rewrite (irange_run h sequences Hne). cbn [snd].
  split; [reflexivity|]. split.
  - now rewrite length_map, length_seq.
  - intros i Hi.
    destruct (row_at_ok h sequences i Hi) as (items & Erow & Hitems).
    exists items. split; [|exact Hitems].
    rewrite nth_error_map, nth_error_seq.
    destruct (Nat.ltb_spec i (common_len h sequences)); [|lia].
    cbn. now rewrite Erow.
Qed.

Lemma irange_spec_witness :
  irange_returns_rows heap_doc [0%nat; 1%nat] /\
  snd (irange [0%nat; 1%nat] heap_doc) =
    Ok (VList [VTuple [VInt 0; VInt 1; VStr "a"];
               VTuple [VInt 1; VInt 2; VStr "b"]]).
Proof.
  apply (irange_spec heap_doc [0%nat; 1%nat]). discriminate.
Defined.

(** C2 as first stated fails for n = 0: [irange()] returns None, which is
    not a list of any length. *)
Lemma irange_no_sequence_no_rows : ~ irange_returns_rows heap_doc [].
Proof.
  intros (rows & Hret & _). cbn in Hret. discriminate.
Qed.

(** C5. With no argument [indices()] returns the empty list and
    [irange()] returns None, which is not the empty list; neither raises. *)
Theorem zero_argument_eager : forall h : heap,
  indices [] h = ([], Ok (VList [])) /\
  irange [] h = ([], Ok VNone) /\
  VNone <> VList [].
Proof.
  intros h. repeat split. discriminate.
Qed.

(** ** The range iterator *)

Lemma rangeiter_next_lt (i l : Z) :
  i < l -> rangeiter_next (RangeIter i l) = (Ok i, RangeIter (i + 1) l).
Proof.
  intros Hlt. unfold rangeiter_next. cbn [ri_index ri_len].
  now rewrite (proj2 (Z.ltb_lt i l) Hlt).
Qed.

Lemma rangeiter_next_ge (i l : Z) :
  l <= i ->
  rangeiter_next (RangeIter i l) = (Raise StopIteration, RangeIter i l).
Proof.
  intros Hge. unfold rangeiter_next. cbn [ri_index ri_len].
  now rewrite (proj2 (Z.ltb_ge i l) Hge).
Qed.

Lemma drain_rangeiter (n : nat) : forall (i fuel k : nat) (env : nat -> heap),
  (n < fuel)%nat ->
  drain fuel env k (RangeIter (Z.of_nat i) (Z.of_nat (i + n))) =
  (map Z.of_nat (seq i n), Some StopIteration,
   RangeIter (Z.of_nat (i + n)) (Z.of_nat (i + n))).
Proof.
  induction n as [|n IH]; intros i fuel k env Hfuel;
    (destruct fuel as [|fuel]; [lia|]); cbn [drain seq map];
    unfold next, rangeiter_Iterator.
  - rewrite Nat.add_0_r, rangeiter_next_ge by lia. reflexivity.
  - rewrite rangeiter_next_lt by lia.
    replace (Z.of_nat i + 1) with (Z.of_nat (S i)) by lia.
    replace (i + S n)%nat with (S i + n)%nat by lia.
    rewrite IH by lia. reflexivity.
Qed.

(** ** The steps of xirange *)

Lemma xirange_next_created h sequences :
  sequences <> [] ->
  xirange_next (XI_created sequences) h =
  let '(t, r, g) :=
    xirange_loop sequences
                 (RangeIter 0 (Z.of_nat (common_len h sequences))) h in
  (map EvLen sequences ++ t, r, g).
Proof.
  intros Hne. cbn [xirange_next]. rewrite length_pos_ltb.
  destruct sequences as [|r rs] eqn:E; [congruence|]. rewrite <- E in *.
  rewrite (len_min_run h sequences Hne).
  unfold xrange, xrange_iter. cbn [xr_len].
  now rewrite Z.max_r by lia.
Qed.

Lemma xirange_loop_yield h sequences (k l : nat) :
  (k < l)%nat ->
  (forall r, In r sequences -> (k < length (h r))%nat) ->
  xirange_loop sequences (RangeIter (Z.of_nat k) (Z.of_nat l)) h =
  (map (fun r => EvGetItem r (Z.of_nat k)) sequences,
   Ok (row_at h sequences k),
   XI_suspended sequences (RangeIter (Z.of_nat (S k)) (Z.of_nat l))).
Proof.
  intros Hlt Hread. unfold xirange_loop.
  rewrite rangeiter_next_lt by lia.
  rewrite (row_run h sequences k Hread).
  now replace (Z.of_nat k + 1) with (Z.of_nat (S k)) by lia.
Qed.

Lemma xirange_loop_stop h sequences (i l : Z) :
  l <= i ->
  xirange_loop sequences (RangeIter i l) h =
  ([], Raise StopIteration, XI_finished).
Proof.
  intros Hge. unfold xirange_loop. now rewrite rangeiter_next_ge.
Qed.

(** A request only ever subscripts at the index the loop has reached. *)
Lemma xirange_loop_log h sequences (i l : Z) e :
  In e (fst (fst (xirange_loop sequences (RangeIter i l) h))) ->
  exists r, In r sequences /\ e = EvGetItem r i.
Proof.
  unfold xirange_loop. destruct (Z.lt_ge_cases i l) as [Hlt|Hge].
  - rewrite rangeiter_next_lt by exact Hlt.
    pose proof (row_log h sequences i e) as Hlog.
    destruct (row sequences i h) as [t [v|ex]]; exact Hlog.
  - rewrite rangeiter_next_ge by exact Hge. contradiction.
Qed.

(** A failed request leaves the generator finished; a successful one moves
    the cursor by one and keeps the bound. *)
Lemma xirange_loop_cases h sequences (i l : Z) :
  (exists t e,
     xirange_loop sequences (RangeIter i l) h = (t, Raise e, XI_finished)) \/
  (i < l /\
   exists t v,
     xirange_loop sequences (RangeIter i l) h =
     (t, Ok v, XI_suspended sequences (RangeIter (i + 1) l))).
Proof.
  unfold xirange_loop. destruct (Z.lt_ge_cases i l) as [Hlt|Hge].
  - rewrite rangeiter_next_lt by exact Hlt.
    destruct (row sequences i h) as [t [v|ex]].
    + right. split; [exact Hlt|]. now exists t, v.
    + left. now exists t, ex.
  - rewrite rangeiter_next_ge by exact Hge. left. now eexists _, _.
Qed.

(** ** Draining xirange *)

Lemma drain_suspended sequences (n : nat) :
  forall (k fuel : nat) (env : nat -> heap),
  (n < fuel)%nat ->
  (forall j r, (k <= j < k + n)%nat -> In r sequences ->
               (j < length (env j r))%nat) ->
  drain fuel env k
        (XI_suspended sequences (RangeIter (Z.of_nat k) (Z.of_nat (k + n)))) =
  (map (fun j => row_at (env j) sequences j) (seq k n),
   Some StopIteration, XI_finished).
Proof.
  induction n as [|n IH]; intros k fuel env Hfuel Hread;
    (destruct fuel as [|fuel]; [lia|]); cbn [drain seq map];
    unfold next, xirange_Iterator; cbn [xirange_next].
  - rewrite xirange_loop_stop by lia. reflexivity.
  - rewrite xirange_loop_yield
      by first [lia | intros r Hr; apply Hread; [lia | exact Hr]].
    replace (k + S n)%nat with (S k + n)%nat by lia.
    rewrite IH; [reflexivity | lia |].
    intros j r Hj Hr. apply Hread; [lia | exact Hr].
Qed.

(** The first request asks the lengths and then does what a request on a
    frame suspended before index 0 would do. *)
Lemma drain_created sequences fuel env :
  sequences <> [] ->
  drain fuel env 0 (XI_created sequences) =
  match fuel with
  | O => ([], None, XI_created sequences)
  | S _ =>
      drain fuel env 0
            (XI_suspended sequences
               (RangeIter 0 (Z.of_nat (common_len (env 0%nat) sequences))))
  end.
Proof.
  intros Hne. destruct fuel as [|fuel]; [reflexivity|].
  cbn [drain]. unfold next, xirange_Iterator.
  rewrite (xirange_next_created _ _ Hne). cbn [xirange_next].
  destruct (xirange_loop sequences _ (env 0%nat)) as [[t [v|ex]] g];
    reflexivity.
Qed.

Lemma drain_xirange sequences fuel env :
  sequences <> [] ->
  (common_len (env 0%nat) sequences < fuel)%nat ->
  (forall j r, (j < common_len (env 0%nat) sequences)%nat ->
               In r sequences -> (j < length (env j r))%nat) ->
  drain fuel env 0 (XI_created sequences) =
  (map (fun j => row_at (env j) sequences j)
       (seq 0 (common_len (env 0%nat) sequences)),
   Some StopIteration, XI_finished).
Proof.
  intros Hne Hfuel Hread. rewrite (drain_created _ _ _ Hne).
  destruct fuel as [|fuel]; [lia|].
  apply (drain_suspended sequences (common_len (env 0%nat) sequences) 0);
    [exact Hfuel|].
  intros j r Hj Hr. apply Hread; [lia | exact Hr].
Qed.

Lemma drain_xirange_still sequences fuel h :
  sequences <> [] ->
  (common_len h sequences < fuel)%nat ->
  drain fuel (still h) 0 (XI_created sequences) =
  (map (row_at h sequences) (seq 0 (common_len h sequences)),
   Some StopIteration, XI_finished).
Proof.
  intros Hne Hfuel. apply (drain_xirange sequences fuel (still h) Hne Hfuel).
  intros j r Hj Hr. unfold still in *.
  pose proof (common_len_le h sequences r Hr). lia.
Qed.

(** However the heap changes, a suspended frame yields no more items than
    its iterator has left. *)
Lemma drain_suspended_bound sequences (fuel : nat) :
  forall (env : nat -> heap) (k : nat) (i l : Z),
  (length (fst (fst (drain fuel env k
                       (XI_suspended sequences (RangeIter i l)))))
   <= Z.to_nat (l - i))%nat.
Proof.
  induction fuel as [|fuel IH]; intros env k i l; cbn [drain];
    [cbn; lia|].
  unfold next, xirange_Iterator; cbn [xirange_next].
  destruct (xirange_loop_cases (env k) sequences i l)
    as [(t & e & ->)|(Hlt & t & v & ->)]; [cbn; lia|].
  specialize (IH env (S k) (i + 1) l).
  destruct (drain fuel env (S k) _) as [[vs e] g]. cbn [fst length] in *.
  lia.
Qed.

(** ** The logs of a pass of xirange *)

Lemma drain_log_suspended sequences (fuel : nat) :
  forall (env : nat -> heap) (k : nat) (i l : Z) (j : nat) t e,
  nth_error (drain_log fuel env k (XI_suspended sequences (RangeIter i l))) j
    = Some t ->
  In e t ->
  exists r, In r sequences /\ e = EvGetItem r (i + Z.of_nat j).
Proof.
  induction fuel as [|fuel IH]; intros env k i l j t e; cbn [drain_log];
    [now destruct j|].
  unfold next, xirange_Iterator; cbn [xirange_next].
  pose proof (xirange_loop_log (env k) sequences i l e) as Hlog.
  destruct (xirange_loop_cases (env k) sequences i l)
    as [(t0 & ex & E)|(Hlt & t0 & v & E)]; rewrite E in *; cbn [fst] in Hlog.
  - destruct j as [|[|j]]; cbn [nth_error]; try discriminate.
    intros [= <-] Hin. rewrite Z.add_0_r. now apply Hlog.
  - destruct j as [|j]; cbn [nth_error].
    + intros [= <-] Hin. rewrite Z.add_0_r. now apply Hlog.
    + intros Hnth Hin.
      destruct (IH env (S k) (i + 1) l j t e Hnth Hin) as (r & Hr & ->).
      exists r. split; [exact Hr|]. f_equal. lia.
Qed.

Lemma drain_log_created sequences fuel env :
  sequences <> [] ->
  drain_log fuel env 0 (XI_created sequences) =
  match drain_log fuel env 0
          (XI_suspended sequences
             (RangeIter 0 (Z.of_nat (common_len (env 0%nat) sequences)))) with
  | [] => []
  | t :: ts => (map EvLen sequences ++ t) :: ts
  end.
Proof.
  intros Hne. destruct fuel as [|fuel]; [reflexivity|].
  cbn [drain_log]. unfold next, xirange_Iterator.
  rewrite (xirange_next_created _ _ Hne). cbn [xirange_next].
  destruct (xirange_loop sequences _ (env 0%nat)) as [[t [v|ex]] g];
    reflexivity.
Qed.

(** The log of the [k]-th request of a pass: the lengths, asked by the first
    request only, and then subscriptions at [k] and nowhere else. *)
Lemma xirange_request_log sequences fuel env (k : nat) t :
  sequences <> [] ->
  nth_error (drain_log fuel env 0 (XI_created sequences)) k = Some t ->
  exists t',
    t = (if (k =? 0)%nat then map EvLen sequences else []) ++ t' /\
    forall e, In e t' ->
      exists r, In r sequences /\ e = EvGetItem r (Z.of_nat k).
Proof.
  intros Hne. rewrite (drain_log_created _ _ _ Hne).
  pose proof (drain_log_suspended sequences fuel env 0 0
                (Z.of_nat (common_len (env 0%nat) sequences))) as Hlog.
  destruct (drain_log fuel env 0 (XI_suspended sequences _)) as [|t0 ts];
    [now destruct k|].
  destruct k as [|k]; cbn [nth_error Nat.eqb].
  - intros [= <-]. exists t0. split; [reflexivity|].
    intros e He. apply (Hlog 0%nat t0 e eq_refl He).
  - intros Hnth. exists t. split; [reflexivity|].
    intros e He. apply (Hlog (S k) t e Hnth He).
Qed.

Lemma filter_len_lens sequences :
  filter is_len (map EvLen sequences) = map EvLen sequences.
Proof.
  induction sequences as [|r rs IH]; [reflexivity|].
  cbn [map filter is_len]. now rewrite IH.
Qed.

Lemma filter_len_getitems (t : list event) (i : Z) (P : loc -> Prop) :
  (forall e, In e t -> exists r, P r /\ e = EvGetItem r i) ->
  filter is_len t = [].
Proof.
  induction t as [|e t IH]; intros Hall; [reflexivity|].
  destruct (Hall e (or_introl eq_refl)) as (r & _ & ->).
  cbn [filter is_len]. apply IH. intros e' He'. apply Hall. now right.
Qed.

Lemma filter_getitem_lens sequences :
  filter is_getitem (map EvLen sequences) = [].
Proof.
  induction sequences as [|r rs IH]; [reflexivity|exact IH].
Qed.

Lemma drain_log_suspended_run sequences (n : nat) :
  forall (k fuel : nat) (env : nat -> heap),
  (n < fuel)%nat ->
  (forall j r, (k <= j < k + n)%nat -> In r sequences ->
               (j < length (env j r))%nat) ->
  drain_log fuel env k
    (XI_suspended sequences (RangeIter (Z.of_nat k) (Z.of_nat (k + n)))) =
  map (fun j => map (fun r => EvGetItem r (Z.of_nat j)) sequences) (seq k n)
  ++ [[]].
Proof.
  induction n as [|n IH]; intros k fuel env Hfuel Hread;
    (destruct fuel as [|fuel]; [lia|]); cbn [drain_log seq map app];
    unfold next, xirange_Iterator; cbn [xirange_next].
  - rewrite xirange_loop_stop by lia. reflexivity.
  - rewrite xirange_loop_yield
      by first [lia | intros r Hr; apply Hread; [lia | exact Hr]].
    replace (k + S n)%nat with (S k + n)%nat by lia.
    rewrite IH; [reflexivity | lia |].
    intros j r Hj Hr. apply Hread; [lia | exact Hr].
Qed.

Lemma filter_getitem_gets sequences (i : Z) :
  filter is_getitem (map (fun r => EvGetItem r i) sequences) =
  map (fun r => EvGetItem r i) sequences.
Proof.
  induction sequences as [|r rs IH]; [reflexivity|].
  cbn [map filter is_getitem]. now rewrite IH.
Qed.

(** The subscriptions of a whole pass when the heap is left alone. *)
Lemma drain_log_xirange_still sequences fuel h :
  sequences <> [] ->
  (common_len h sequences < fuel)%nat ->
  map (filter is_getitem)
      (drain_log fuel (still h) 0 (XI_created sequences)) =
  map (fun j => map (fun r => EvGetItem r (Z.of_nat j)) sequences)
      (seq 0 (common_len h sequences)) ++ [[]].
Proof.
  intros Hne Hfuel. rewrite (drain_log_created _ _ _ Hne).
  pose proof (drain_log_suspended_run sequences (common_len h sequences)
                0 fuel (still h) Hfuel) as Hrun.
  rewrite Nat.add_0_l in Hrun. change (Z.of_nat 0) with 0 in Hrun.
  unfold still at 2. rewrite Hrun.
  - set (gets := fun j : nat =>
                   map (fun r => EvGetItem r (Z.of_nat j)) sequences).
    assert (Hrest : forall l : list nat,
               map (filter is_getitem) (map gets l ++ [[]]) =
               map gets l ++ [[]]).
    { intros l. rewrite map_app, map_map. cbn [map filter]. f_equal.
      apply map_ext. intros j. apply filter_getitem_gets. }
    destruct (common_len h sequences) as [|m].
    + cbn [seq map app filter].
      now rewrite app_nil_r, filter_getitem_lens.
    + cbn [seq map app]. rewrite filter_app, filter_getitem_lens.
      cbn [app]. unfold gets at 1. rewrite filter_getitem_gets.
      f_equal. apply Hrest.
  - intros j r Hj Hr. unfold still.
    pose proof (common_len_le h sequences r Hr). lia.
Qed.

(** ** Exhaustion *)

Section Exhaustion.

Context {G Item : Type} {IG : Iterator G Item}.

(** The iterator closes: a request that raised leaves a state that answers
    StopIteration to every request and does not move. *)
Hypothesis closes : forall g h t e g',
  next g h = (t, Raise e, g') ->
  forall h', next g' h' = ([], Raise StopIteration, g').

Lemma raised_stays_exhausted g h t e g' :
  next g h = (t, Raise e, g') -> stays_exhausted g'.
Proof.
  intros Hraise hs. pose proof (closes _ _ _ _ _ Hraise) as Hfix.
  induction hs as [|h' hs IH]; [reflexivity|].
  cbn [requests map]. rewrite Hfix. now rewrite IH.
Qed.

Lemma drained_is_closed fuel : forall env k g items e g',
  drain fuel env k g = (items, Some e, g') ->
  forall h', next g' h' = ([], Raise StopIteration, g').
Proof.
  induction fuel as [|fuel IH]; intros env k g items e g';
    cbn [drain]; [discriminate|].
  destruct (next g (env k)) as [[t [v|ex]] g1] eqn:E.
  - destruct (drain fuel env (S k) g1) as [[vs e1] g2] eqn:Ed.
    intros [= _ -> ->]. exact (IH _ _ _ _ _ _ Ed).
  - intros [= _ _ <-]. exact (closes _ _ _ _ _ E).
Qed.

Lemma drained_stays_exhausted fuel env k g items e g' :
  drain fuel env k g = (items, Some e, g') -> stays_exhausted g'.
Proof.
  intros Hd hs. pose proof (drained_is_closed _ _ _ _ _ _ _ Hd) as Hfix.
  induction hs as [|h' hs IH]; [reflexivity|].
  cbn [requests map]. rewrite Hfix. now rewrite IH.
Qed.

Lemma drained_again fuel env k g items e g' env' k' :
  drain fuel env k g = (items, Some e, g') ->
  drain fuel env' k' g' = ([], Some StopIteration, g').
Proof.
  intros Hd. pose proof (drained_is_closed _ _ _ _ _ _ _ Hd) as Hfix.
  destruct fuel as [|fuel]; [discriminate|].
  cbn [drain]. now rewrite Hfix.
Qed.

End Exhaustion.

Lemma xirange_closes g h t e g' :
  xirange_next g h = (t, Raise e, g') ->
  forall h', xirange_next g' h' = ([], Raise StopIteration, g').
Proof.
  intros Hraise. enough (g' = XI_finished) as -> by reflexivity.
  destruct g as [sequences|sequences [i l]|].
  - destruct sequences as [|r rs] eqn:E.
    + cbn in Hraise. now injection Hraise as _ _ <-.
    + rewrite <- E in *.
      assert (Hne : sequences <> []) by (rewrite E; discriminate).
      rewrite (xirange_next_created _ _ Hne) in Hraise.
      destruct (xirange_loop_cases h sequences 0
                  (Z.of_nat (common_len h sequences)))
        as [(t0 & ex & E0)|(_ & t0 & v & E0)]; rewrite E0 in Hraise.
      * now injection Hraise as _ _ <-.
      * discriminate.
  - cbn [xirange_next] in Hraise.
    destruct (xirange_loop_cases h sequences i l)
      as [(t0 & ex & E0)|(_ & t0 & v & E0)]; rewrite E0 in Hraise.
    + now injection Hraise as _ _ <-.
    + discriminate.
  - cbn in Hraise. now injection Hraise as _ _ <-.
Qed.

Lemma rangeiter_closes (it : rangeiter) (h : heap) t e it' :
  next it h = (t, Raise e, it') ->
  forall h', next it' h' = ([], Raise StopIteration, it').
Proof.
  unfold next, rangeiter_Iterator, rangeiter_next.
  destruct (ri_index it <? ri_len it) eqn:E; [discriminate|].
  intros [= _ _ <-] h'. now rewrite E.
Qed.

Section EnumerateFacts.

Context {Obj It : Type} `{Iterable Obj It} `{Iterator It pyval}.

Lemma enumerate_loop_cases i it h :
  (exists t e,
     enumerate_loop i it h = (t, Raise e, @En_finished Obj It)) \/
  (exists t v it',
     next it h = (t, Ok v, it') /\
     enumerate_loop i it h =
     (EvNext :: t, Ok (VTuple [VInt i; v]), @En_suspended Obj It i it')).
Proof.
  unfold enumerate_loop.
  destruct (next it h) as [[t [v|ex]] it'].
  - right. now exists t, v, it'.
  - left. now eexists _, _.
Qed.

Lemma enumerate_closes (g : enumerate_gen Obj It) h t e g' :
  enumerate_next g h = (t, Raise e, g') ->
  forall h', enumerate_next g' h' = ([], Raise StopIteration, g').
Proof.
  intros Hraise. enough (g' = En_finished) as -> by reflexivity.
  destruct g as [sequence|i it|]; cbn [enumerate_next] in Hraise.
  - destruct (py_iter sequence h) as [t0 [it|ex]].
    + destruct (enumerate_loop_cases 0 it h)
        as [(t1 & ex & E1)|(t1 & v & it' & _ & E1)]; rewrite E1 in Hraise.
      * now injection Hraise as _ _ <-.
      * discriminate.
    + now injection Hraise as _ _ <-.
  - destruct (enumerate_loop_cases (i + 1) it h)
      as [(t1 & ex & E1)|(t1 & v & it' & _ & E1)]; rewrite E1 in Hraise.
    + now injection Hraise as _ _ <-.
    + discriminate.
  - now injection Hraise as _ _ <-.
Qed.

(** A frame suspended at index [i] goes on with [i + 1]. *)
Lemma drain_enumerate_suspended h it es :
  yields_then_stops h it es ->
  forall (i : Z) (fuel k : nat),
  (length es < fuel)%nat ->
  drain fuel (still h) k (@En_suspended Obj It i it) =
  (number_from (i + 1) es, Some StopIteration, En_finished).
Proof.
  induction 1 as [it t it' Hstop|it t v it' es Hitem _ IH];
    intros i fuel k Hfuel; (destruct fuel as [|fuel]; [cbn in Hfuel; lia|]);
    cbn [drain number_from]; unfold next at 1, enumerate_Iterator;
    cbn [enumerate_next]; unfold enumerate_loop, still at 1.
  - now rewrite Hstop.
  - rewrite Hitem. rewrite IH by (cbn in Hfuel; lia). reflexivity.
Qed.

Lemma drain_enumerate h (sequence : Obj) t it es fuel :
  py_iter sequence h = (t, Ok it) ->
  yields_then_stops h it es ->
  (length es < fuel)%nat ->
  drain fuel (still h) 0 (En_created sequence) =
  (number_from 0 es, Some StopIteration, En_finished).
Proof.
  intros Hiter Hyields Hfuel.
  pose proof (drain_enumerate_suspended h it es Hyields (-1) fuel 0 Hfuel)
    as Hs.
  change (-1 + 1) with 0 in Hs. rewrite <- Hs.
  destruct fuel as [|fuel]; [lia|].
  cbn [drain]. unfold next at 1 2, enumerate_Iterator.
  cbn [enumerate_next]. change (still h 0%nat) with h. rewrite Hiter.
  change (-1 + 1) with 0.
  destruct (@enumerate_loop Obj It _ 0 it h) as [[t' [v|ex]] g'];
    reflexivity.
Qed.

End EnumerateFacts.

(** The iterator of a list gives the items of the list, then stops. *)
Lemma listiter_yields h r (n : nat) :
  yields_then_stops h (ListIter (Some r) n) (skipn n (h r)).
Proof.
  remember (length (h r) - n)%nat as d eqn:Ed.
  revert n Ed. induction d as [|d IH]; intros n Ed.
  - rewrite skipn_all2 by lia.
    apply (yts_stop h _ [] (ListIter None n)).
    unfold next, listiter_Iterator, listiter_next. cbn [li_seq li_index].
    now rewrite (proj2 (nth_error_None (h r) n)) by lia.
  - destruct (nth_error (h r) n) as [v|] eqn:E;
      [|apply nth_error_None in E; lia].
    assert (Hskip : skipn n (h r) = v :: skipn (S n) (h r)).
    { clear -E. revert n E. induction (h r) as [|x l IHl]; intros n E.
      - now destruct n.
      - destruct n as [|n]; [now injection E as ->|].
        cbn [skipn]. now apply IHl. }
    rewrite Hskip.
    apply (yts_item h _ [] v (ListIter (Some r) (S n))).
    + unfold next, listiter_Iterator, listiter_next. cbn [li_seq li_index].
      now rewrite E.
    + apply IH. lia.
Qed.

(** ** The lazy functions *)

(** C3, amended.  [xindices] asks every length once when it is called, and
    the xrange it returns yields 0..m-1 for the m of that moment whatever
    the heap becomes.  [xirange] asks nothing when it is called: with at
    least one sequence, the first request asks every length once, no later
    request asks a length, and the pass yields at most m items, m being the
    least length at the first request (exactly m, each row read in the heap
    of its own request, when the items are still there). *)
Theorem lazy_bound_binding :
  forall (sequences : list loc) (h0 : heap) (env : nat -> heap) (fuel : nat),
  sequences <> [] ->
  (common_len h0 sequences < fuel)%nat ->
  (common_len (env 0%nat) sequences < fuel)%nat ->
  xindices sequences h0 =
    (map EvLen sequences, Ok (XRange (Z.of_nat (common_len h0 sequences)))) /\
  fst (drain fuel env 0
         (xrange_iter (XRange (Z.of_nat (common_len h0 sequences))))) =
    (map Z.of_nat (seq 0 (common_len h0 sequences)), Some StopIteration) /\
  xirange sequences h0 = ([], Ok (XI_created sequences)) /\
  (exists t0,
     nth_error (drain_log fuel env 0 (XI_created sequences)) 0 = Some t0 /\
     filter is_len t0 = map EvLen sequences) /\
  (forall k t,
     nth_error (drain_log fuel env 0 (XI_created sequences)) (S k) = Some t ->
     filter is_len t = []) /\
  (length (fst (fst (drain fuel env 0 (XI_created sequences))))
   <= common_len (env 0%nat) sequences)%nat /\
  ((forall j r, (j < common_len (env 0%nat) sequences)%nat ->
                In r sequences -> (j < length (env j r))%nat) ->
   fst (drain fuel env 0 (XI_created sequences)) =
   (map (fun j => row_at (env j) sequences j)
        (seq 0 (common_len (env 0%nat) sequences)),
    Some StopIteration)).
Proof.
  intros sequences h0 env fuel Hne Hfuel0 Hfuel.
  split; [apply xindices_run|].
  split.
  { unfold xrange_iter. cbn [xr_len].
    pose proof (drain_rangeiter (common_len h0 sequences) 0 fuel 0 env Hfuel0)
      as Hd.
    rewrite Nat.add_0_l in Hd. change (Z.of_nat 0) with 0 in Hd.
    now rewrite Hd. }
  split; [reflexivity|].
  split.
  { destruct (nth_error (drain_log fuel env 0 (XI_created sequences)) 0)
      as [t0|] eqn:E.
    - exists t0. split; [reflexivity|].
      destruct (xirange_request_log _ _ _ _ _ Hne E) as (t' & -> & Hgets).
      cbn [Nat.eqb]. rewrite filter_app, filter_len_lens.
      rewrite (filter_len_getitems t' _ _ Hgets). apply app_nil_r.
    - exfalso. rewrite (drain_log_created _ _ _ Hne) in E.
      destruct fuel as [|fuel]; [lia|]. cbn [drain_log] in E.
      destruct (next _ _) as [[t [v|ex]] g]; discriminate. }
  split.
  { intros k t E.
    destruct (xirange_request_log _ _ _ _ _ Hne E) as (t' & -> & Hgets).
    cbn [Nat.eqb app]. apply (filter_len_getitems t' _ _ Hgets). }
  split.
  { rewrite (drain_created _ _ _ Hne). destruct fuel as [|fuel]; [lia|].
    pose proof (drain_suspended_bound sequences (S fuel) env 0 0
                  (Z.of_nat (common_len (env 0%nat) sequences))) as Hb.
    lia. }
  intros Hread. now rewrite drain_xirange.
Qed.

Lemma lazy_bound_binding_witness :
  [0%nat] <> [] /\
  (common_len heap_two [0%nat] < 5)%nat /\
  (common_len heap_three [0%nat] < 5)%nat /\
  xindices [0%nat] heap_two = ([EvLen 0%nat], Ok (XRange 2)) /\
  (length (fst (fst (drain 5 (still heap_three) 0 (XI_created [0%nat]))))
   <= 3)%nat.
Proof.
  assert (Hne : [0%nat] <> []) by discriminate.
  assert (H0 : (common_len heap_two [0%nat] < 5)%nat) by (vm_compute; lia).
  assert (H1 : (common_len (still heap_three 0%nat) [0%nat] < 5)%nat)
    by (vm_compute; lia).
  pose proof (lazy_bound_binding [0%nat] heap_two (still heap_three) 5
                Hne H0 H1) as (Hx & _ & _ & _ & _ & Hb & _).
  exact (conj Hne (conj H0 (conj H1 (conj Hx Hb)))).
Defined.

(** C3 as first stated fails for [xirange]: a list of two items that grows
    to three between the call and the first request is ranged over in
    full. *)
Lemma xirange_bound_is_late : ~ xirange_bound_at_construction.
Proof.
  intros Hclaim.
  specialize (Hclaim [0%nat] heap_two (still heap_three)
                     (XI_created [0%nat]) 5%nat eq_refl).
  vm_compute in Hclaim. lia.
Qed.

(** C4, amended.  Draining what [xindices] returns gives the list [indices]
    returns, for any number of sequences.  With at least one sequence,
    draining [xirange] gives the list [irange] returns.  With none, the
    generator of [xirange] yields nothing and [irange] returns None. *)
Theorem lazy_drains_to_eager :
  forall (h : heap) (sequences : list loc) (fuel : nat),
  (common_len h sequences < fuel)%nat ->
  xindices_drains_to_indices fuel h sequences /\
  (sequences <> [] -> xirange_drains_to_irange fuel h sequences) /\
  xirange [] h = ([], Ok (XI_created [])) /\
  fst (drain fuel (still h) 0 (XI_created [])) = ([], Some StopIteration) /\
  snd (irange [] h) = Ok VNone.
Proof.
  intros h sequences fuel Hfuel. split; [|split; [|split; [|split]]].
  - exists (XRange (Z.of_nat (common_len h sequences))),
           (RangeIter 0 (Z.of_nat (common_len h sequences))),
           (map Z.of_nat (seq 0 (common_len h sequences))).
    rewrite xindices_run, indices_run. cbn [snd].
    split; [reflexivity|]. split; [reflexivity|]. split; [|reflexivity].
    pose proof (drain_rangeiter (common_len h sequences) 0 fuel 0 (still h)
                  Hfuel) as Hd.
    rewrite Nat.add_0_l in Hd. change (Z.of_nat 0) with 0 in Hd.
    now rewrite Hd.
  - intros Hne.
    exists (XI_created sequences),
           (map (row_at h sequences) (seq 0 (common_len h sequences))).
    rewrite (irange_run _ _ Hne), (drain_xirange_still _ _ _ Hne Hfuel).
    repeat split.
  - reflexivity.
  - destruct fuel as [|fuel]; [lia|]. reflexivity.
  - reflexivity.
Qed.

Lemma lazy_drains_to_eager_witness :
  (common_len heap_doc [0%nat; 1%nat] < 5)%nat /\
  xindices_drains_to_indices 5 heap_doc [0%nat; 1%nat] /\
  xirange_drains_to_irange 5 heap_doc [0%nat; 1%nat].
Proof.
  assert (Hfuel : (common_len heap_doc [0%nat; 1%nat] < 5)%nat)
    by (vm_compute; lia).
  destruct (lazy_drains_to_eager heap_doc [0%nat; 1%nat] 5 Hfuel)
    as (Hx & Hi & _).
  refine (conj Hfuel (conj Hx (Hi _))). discriminate.
Defined.

(** C4 as first stated fails with no sequence: the drained generator gives
    an empty series of items, [irange()] gives None and no list. *)
Lemma xirange_irange_differ_on_nothing :
  ~ exists fuel, xirange_drains_to_irange fuel heap_doc [].
Proof.
  intros (fuel & g & rows & _ & _ & Hret). cbn in Hret. discriminate.
Qed.

(** C8.  [xirange()] with no sequence returns a generator whose first
    request ends it at once: no length is asked, nothing is subscripted,
    nothing is yielded.  What the call returns is that generator, neither the
    empty list of [indices()] nor the None of [irange()]. *)
Theorem xirange_no_sequence :
  forall (h : heap) (env : nat -> heap) (fuel : nat),
  xirange [] h = ([], Ok (XI_created [])) /\
  next (XI_created []) (env 0%nat) = ([], Raise StopIteration, XI_finished) /\
  drain (S fuel) env 0 (XI_created []) =
    ([], Some StopIteration, XI_finished) /\
  drain_log (S fuel) env 0 (XI_created []) = [[]] /\
  stays_exhausted XI_finished.
Proof.
  intros h env fuel. repeat split.
  intros hs. induction hs as [|h' hs IH]; [reflexivity|].
  cbn [requests map]. unfold next, xirange_Iterator. cbn [xirange_next].
  now rewrite <- IH.
Qed.

(** C9.  Calling [xindices] asks lengths and subscripts nothing; calling
    [xirange] touches nothing.  In a pass of [xirange], whatever the heap
    does, the request number [k] subscripts only at index [k], and only the
    sequences given; when the heap is left alone the requests subscript
    every sequence at 0, then at 1, ..., in the order of the arguments, one
    index per request. *)
Theorem lazy_reads_on_demand :
  forall (sequences : list loc) (h : heap),
  filter is_getitem (fst (xindices sequences h)) = [] /\
  fst (xirange sequences h) = [] /\
  (forall (env : nat -> heap) (fuel k : nat) t r i,
     nth_error (drain_log fuel env 0 (XI_created sequences)) k = Some t ->
     In (EvGetItem r i) t ->
     i = Z.of_nat k /\ In r sequences) /\
  (forall fuel, sequences <> [] -> (common_len h sequences < fuel)%nat ->
     map (filter is_getitem)
         (drain_log fuel (still h) 0 (XI_created sequences)) =
     map (fun j => map (fun r => EvGetItem r (Z.of_nat j)) sequences)
         (seq 0 (common_len h sequences)) ++ [[]]).
Proof.
  intros sequences h.
  split; [rewrite xindices_run; apply filter_getitem_lens|].
  split; [reflexivity|]. split.
  - intros env fuel k t r i Hnth Hin.
    destruct sequences as [|r0 rs] eqn:E.
    + destruct fuel as [|fuel]; [now destruct k|].
      cbn in Hnth. destruct k as [|[|k]]; try discriminate.
      injection Hnth as <-. contradiction.
    + rewrite <- E in *.
      assert (Hne : sequences <> []) by (rewrite E; discriminate).
      destruct (xirange_request_log _ _ _ _ _ Hne Hnth) as (t' & Et & Hgets).
      subst t. apply in_app_or in Hin. destruct Hin as [Hin|Hin].
      * destruct (k =? 0)%nat; [|contradiction].
        apply in_map_iff in Hin. destruct Hin as (r' & Er' & _).
        discriminate.
      * destruct (Hgets _ Hin) as (r' & Hr' & Er').
        injection Er' as -> ->. now split.
  - intros fuel Hne Hfuel. now apply drain_log_xirange_still.
Qed.

Lemma lazy_reads_on_demand_witness :
  map (filter is_getitem)
      (drain_log 5 (still heap_doc) 0 (XI_created [0%nat; 1%nat])) =
  [[EvGetItem 0%nat 0; EvGetItem 1%nat 0];
   [EvGetItem 0%nat 1; EvGetItem 1%nat 1]; []].
Proof.
  assert (Hne : [0%nat; 1%nat] <> []) by discriminate.
  assert (Hfuel : (common_len heap_doc [0%nat; 1%nat] < 5)%nat)
    by (vm_compute; lia).
  exact (proj2 (proj2 (proj2 (lazy_reads_on_demand [0%nat; 1%nat] heap_doc)))
               5%nat Hne Hfuel).
Defined.

(** A generator is its own iterator: once a loop over it has come to its
    end, a second loop finds nothing. *)
Lemma xirange_single_pass (g : xirange_gen) : single_pass g.
Proof.
  intros fuel h it it' items [= <-] Hd.
  unfold second_pass. cbn [py_iter advanced xirange_Iterable ret].
  rewrite Hd. cbv iota beta.
  now rewrite (drained_again (IG := xirange_Iterator) xirange_closes
                 _ _ _ _ _ _ _ (still h) 0%nat Hd).
Qed.

Lemma enumerate_single_pass {Obj It} `{Iterable Obj It} `{Iterator It pyval}
    (g : enumerate_gen Obj It) : single_pass g.
Proof.
  intros fuel h it it' items [= <-] Hd.
  unfold second_pass. cbn [py_iter advanced enumerate_Iterable ret].
  rewrite Hd. cbv iota beta.
  now rewrite (drained_again (IG := enumerate_Iterator) enumerate_closes
                 _ _ _ _ _ _ _ (still h) 0%nat Hd).
Qed.

(** An xrange keeps no cursor: every loop over it starts from 0. *)
Lemma xrange_second_pass (m fuel : nat) (env : nat -> heap) :
  (m < fuel)%nat ->
  second_pass fuel env (XRange (Z.of_nat m)) =
  Some (map Z.of_nat (seq 0 m), Some StopIteration).
Proof.
  intros Hfuel. unfold second_pass.
  cbn [py_iter advanced xrange_Iterable ret xrange_iter xr_len].
  pose proof (drain_rangeiter m 0 fuel 0 env Hfuel) as Hd.
  rewrite Nat.add_0_l in Hd. change (Z.of_nat 0) with 0 in Hd.
  unfold xrange_iter. cbn [xr_len]. now rewrite Hd.
Qed.

(** C6, amended.  The generators of [xirange] and [enumerate], and every
    iterator taken from the xrange of [xindices], answer StopIteration to
    every request that follows one that raised; a second loop over a
    generator that a first loop has drained finds nothing.  The xrange that
    [xindices] returns is not such an iterator but an object that can be
    iterated again: a second loop over it yields 0..m-1 again. *)
Theorem exhaustion_is_final :
  (forall (g g' : xirange_gen) h t e,
     next g h = (t, Raise e, g') -> stays_exhausted g') /\
  (forall (Obj It : Type) (IO : Iterable Obj It) (II : Iterator It pyval)
          (g g' : enumerate_gen Obj It) h t e,
     next g h = (t, Raise e, g') -> stays_exhausted g') /\
  (forall (it it' : rangeiter) h t e,
     next it h = (t, Raise e, it') -> stays_exhausted it') /\
  (forall g : xirange_gen, single_pass g) /\
  (forall (Obj It : Type) (IO : Iterable Obj It) (II : Iterator It pyval)
          (g : enumerate_gen Obj It), single_pass g) /\
  (forall (sequences : list loc) (h : heap) (env : nat -> heap) (fuel : nat),
     (common_len h sequences < fuel)%nat ->
     exists x,
       snd (xindices sequences h) = Ok x /\
       second_pass fuel env x =
       Some (map Z.of_nat (seq 0 (common_len h sequences)),
             Some StopIteration)).
Proof.
  split; [|split; [|split; [|split; [|split]]]].
  - intros g g' h t e. apply (raised_stays_exhausted (IG := xirange_Iterator) xirange_closes).
  - intros Obj It IO II g g' h t e.
    apply (raised_stays_exhausted (IG := enumerate_Iterator)
             enumerate_closes).
  - intros it it' h t e. apply (raised_stays_exhausted (IG := rangeiter_Iterator) rangeiter_closes).
  - exact xirange_single_pass.
  - intros Obj It IO II. exact enumerate_single_pass.
  - intros sequences h env fuel Hfuel.
    exists (XRange (Z.of_nat (common_len h sequences))).
    rewrite xindices_run. split; [reflexivity|].
    now apply xrange_second_pass.
Qed.

Lemma exhaustion_is_final_witness :
  stays_exhausted XI_finished /\
  second_pass 5 (still heap_doc) (XRange 2) = Some ([0; 1], Some StopIteration).
Proof.
  destruct exhaustion_is_final as (Hx & _ & _ & _ & _ & Hr).
  split.
  - exact (Hx (XI_created []) XI_finished heap_doc [] StopIteration eq_refl).
  - assert (Hfuel : (common_len heap_doc [0%nat; 1%nat] < 5)%nat)
      by (vm_compute; lia).
    destruct (Hr [0%nat; 1%nat] heap_doc (still heap_doc) 5%nat Hfuel)
      as (x & Ex & Hsecond).
    rewrite xindices_run in Ex. injection Ex as <-. exact Hsecond.
Defined.

(** C6 as first stated fails for [xindices]: a loop over
    [xindices([1,2,3], "ab")] comes to its end, and a second loop over the
    same object yields 0 and 1 again. *)
Lemma xindices_result_restarts :
  ~ (forall x, snd (xindices [0%nat; 1%nat] heap_doc) = Ok x -> single_pass x).
Proof.
  intros Hclaim.
  specialize (Hclaim (XRange 2) eq_refl 5%nat heap_doc
                (RangeIter 0 2) (RangeIter 2 2) [0; 1] eq_refl eq_refl).
  vm_compute in Hclaim. discriminate.
Qed.

(** ** enumerate *)

(** C7.  When [iter(sequence)] gives an iterator that yields e0, ..., e(k-1)
    and then signals StopIteration, the generator of [enumerate(sequence)]
    yields (0, e0), (1, e1), ..., (k-1, e(k-1)) in that order and then ends
    with StopIteration, no other exception; every list is such a sequence,
    and [enumerate(['x','y','z'])] yields (0,'x'), (1,'y'), (2,'z') and
    ends. *)
Theorem enumerate_spec :
  forall (Obj It : Type) (IO : Iterable Obj It) (II : Iterator It pyval)
         (sequence : Obj) (h : heap) (t : list event) (it : It)
         (es : list pyval) (fuel : nat),
  py_iter sequence h = (t, Ok it) ->
  yields_then_stops h it es ->
  (length es < fuel)%nat ->
  @enumerate Obj It sequence h = ([], Ok (En_created sequence)) /\
  drain fuel (still h) 0 (En_created sequence) =
    (number_from 0 es, Some StopIteration, En_finished) /\
  (forall r : loc, yields_then_stops h (ListIter (Some r) 0) (h r)) /\
  drain 4 (still heap_xyz) 0 (En_created (OSeq 0%nat)) =
    ([VTuple [VInt 0; VStr "x"]; VTuple [VInt 1; VStr "y"];
      VTuple [VInt 2; VStr "z"]],
     Some StopIteration, En_finished).
Proof.
  intros Obj It IO II sequence h t it es fuel Hiter Hyields Hfuel.
  split; [reflexivity|].
  split; [now apply (drain_enumerate h sequence t it es fuel)|].
  split; [|reflexivity].
  intros r. apply (listiter_yields h r 0).
Qed.

Lemma enumerate_spec_witness :
  drain 4 (still heap_xyz) 0 (En_created (OSeq 0%nat)) =
  (number_from 0 [VStr "x"; VStr "y"; VStr "z"],
   Some StopIteration, En_finished).
Proof.
  assert (Hfuel : (length (heap_xyz 0%nat) < 4)%nat) by (vm_compute; lia).
  exact (proj1 (proj2
           (enumerate_spec pyobj listiter pyobj_Iterable listiter_Iterator
              (OSeq 0%nat) heap_xyz []
              (ListIter (Some 0%nat) 0) (heap_xyz 0%nat) 4%nat
              eq_refl (listiter_yields heap_xyz 0%nat 0) Hfuel))).
Defined.

(** C10.  Calling [enumerate] succeeds for any argument and does nothing
    with it: [iter] is asked by the first request, before anything else.
    When the argument is not iterable, the exception of [iter] comes out of
    that first request, which ends the generator. *)
Theorem enumerate_defers_iter :
  forall (Obj It : Type) (IO : Iterable Obj It) (II : Iterator It pyval)
         (sequence : Obj) (h h' : heap) (t : list event) (e : exn),
  py_iter sequence h' = (t, Raise e) ->
  @enumerate Obj It sequence h = ([], Ok (En_created sequence)) /\
  next (En_created sequence) h' = (EvIter :: t, Raise e, En_finished) /\
  (forall (o : Obj) (h1 : heap),
     exists t1, fst (fst (next (@En_created Obj It o) h1)) = EvIter :: t1) /\
  snd (fst (next (En_created (OInt 5)) h')) = Raise TypeError.
Proof.
  intros Obj It IO II sequence h h' t e Hiter.
  split; [reflexivity|]. split; [|split; [|reflexivity]].
  - unfold next, enumerate_Iterator. cbn [enumerate_next]. now rewrite Hiter.
  - intros o h1. unfold next at 1, enumerate_Iterator. cbn [enumerate_next].
    destruct (py_iter o h1) as [t0 [it|ex]].
    + destruct (@enumerate_loop Obj It _ 0 it h1) as [[t1 r] g].
      now exists (t0 ++ t1).
    + now exists t0.
Qed.

Lemma enumerate_defers_iter_witness :
  @enumerate pyobj listiter (OInt 5) heap_doc =
    ([], Ok (En_created (OInt 5))) /\
  next (En_created (OInt 5)) heap_doc = ([EvIter], Raise TypeError, En_finished).
Proof.
  destruct (enumerate_defers_iter pyobj listiter pyobj_Iterable
              listiter_Iterator (OInt 5) heap_doc heap_doc
              [] TypeError eq_refl) as (Hcall & Hfirst & _).
  exact (conj Hcall Hfirst).
Defined.

(** * Further properties of the module *)

(** ** The common range and the arguments *)

Lemma common_len_incl h sequences sequences' :
  sequences <> [] ->
  incl sequences sequences' ->
  (common_len h sequences' <= common_len h sequences)%nat.
Proof.
  intros Hne Hincl.
  destruct (common_len_attained h sequences Hne) as (r & Hr & ->).
  apply common_len_le, Hincl, Hr.
Qed.

Lemma common_len_perm h sequences sequences' :
  Permutation sequences sequences' ->
  common_len h sequences = common_len h sequences'.
Proof.
  intros Hperm. destruct sequences as [|r rs] eqn:E.
  - now rewrite (Permutation_nil Hperm).
  - rewrite <- E in *.
    assert (Hne : sequences <> []) by (rewrite E; discriminate).
    assert (Hne' : sequences' <> []).
    { intros ->. apply Permutation_sym, Permutation_nil in Hperm.
      contradiction. }
    apply Nat.le_antisymm; apply common_len_incl; try assumption;
      intros x Hx.
    + exact (Permutation_in x (Permutation_sym Hperm) Hx).
    + exact (Permutation_in x Hperm Hx).
Qed.

Lemma firstn_seq_le (a n m : nat) :
  (n <= m)%nat -> firstn n (seq a m) = seq a n.
Proof.
  revert a m. induction n as [|n IH]; intros a m Hle; [reflexivity|].
  destruct m as [|m]; [lia|]. cbn [seq firstn]. f_equal. apply IH. lia.
Qed.

(** X1.  The order of the arguments does not matter to [indices] nor to
    [xindices]: any rearrangement of the same sequences gives the same list
    and the same xrange. *)
Theorem indices_any_order :
  forall (h : heap) (sequences sequences' : list loc),
  Permutation sequences sequences' ->
  snd (indices sequences h) = snd (indices sequences' h) /\
  snd (xindices sequences h) = snd (xindices sequences' h).
Proof.
  intros h sequences sequences' Hperm.
  rewrite !indices_run, !xindices_run. cbn [snd].
  now rewrite (common_len_perm h _ _ Hperm).
Qed.

Lemma indices_any_order_witness :
  snd (indices [0%nat; 1%nat] heap_doc) = snd (indices [1%nat; 0%nat] heap_doc)
  /\ snd (xindices [0%nat; 1%nat] heap_doc) =
     snd (xindices [1%nat; 0%nat] heap_doc).
Proof.
  apply (indices_any_order heap_doc [0%nat; 1%nat] [1%nat; 0%nat]).
  apply perm_swap.
Defined.

(** X2.  Passing more sequences can only shorten the result: when every
    sequence of a first call is among those of a second call, the list the
    second call of [indices] returns is the beginning of the list the first
    call returns. *)
Theorem indices_more_sequences_prefix :
  forall (h : heap) (sequences sequences' : list loc),
  sequences <> [] ->
  incl sequences sequences' ->
  exists ns ns',
    snd (indices sequences h) = Ok (VList ns) /\
    snd (indices sequences' h) = Ok (VList ns') /\
    (length ns' <= length ns)%nat /\
    ns' = firstn (length ns') ns.
Proof.
  intros h sequences sequences' Hne Hincl.
  pose proof (common_len_incl h _ _ Hne Hincl) as Hle.
  eexists _, _. rewrite !indices_run. cbn [snd].
  split; [reflexivity|]. split; [reflexivity|].
  rewrite !length_map, !length_seq. split; [exact Hle|].
  now rewrite !firstn_map, firstn_seq_le.
Qed.

Lemma indices_more_sequences_prefix_witness :
  exists ns ns',
    snd (indices [0%nat] heap_doc) = Ok (VList ns) /\
    snd (indices [0%nat; 1%nat] heap_doc) = Ok (VList ns') /\
    (length ns' <= length ns)%nat /\
    ns' = firstn (length ns') ns.
Proof.
  apply (indices_more_sequences_prefix heap_doc [0%nat] [0%nat; 1%nat]).
  - discriminate.
  - intros x [<-|[]]. now left.
Defined.

(** X3.  One empty sequence among the arguments empties everything:
    [indices] and [irange] return the empty list, [irange] subscripts
    nothing, and the first request made to the generator of [xirange] asks
    the lengths, subscripts nothing and ends the generator. *)
Theorem empty_sequence_empties :
  forall (h : heap) (sequences : list loc) (r : loc),
  In r sequences ->
  h r = [] ->
  snd (indices sequences h) = Ok (VList []) /\
  irange sequences h = (map EvLen sequences, Ok (VList [])) /\
  next (XI_created sequences) h =
    (map EvLen sequences, Raise StopIteration, XI_finished).
Proof.
  intros h sequences r Hin Hempty.
  assert (Hne : sequences <> []) by (intros ->; contradiction).
  assert (Hzero : common_len h sequences = 0%nat).
  { pose proof (common_len_le h sequences r Hin) as Hle.
    rewrite Hempty in Hle. cbn in Hle. lia. }
  rewrite indices_run, (irange_run _ _ Hne), Hzero. cbn [snd seq map concat].
  split; [reflexivity|]. split; [now rewrite app_nil_r|].
  unfold next, xirange_Iterator.
  rewrite (xirange_next_created _ _ Hne), Hzero.
  rewrite xirange_loop_stop by (cbn; lia). now rewrite app_nil_r.
Qed.

Lemma empty_sequence_empties_witness :
  irange [0%nat; 2%nat] heap_doc = ([EvLen 0%nat; EvLen 2%nat], Ok (VList [])).
Proof.
  exact (proj1 (proj2 (empty_sequence_empties heap_doc [0%nat; 2%nat] 2%nat
                         (or_intror (or_introl eq_refl)) eq_refl))).
Defined.

(** X4.  The eager functions ask the length of every argument once, in the
    order of the arguments.  [indices] does nothing else; [irange] then
    subscripts row by row, every sequence at 0, then every sequence at 1, and
    so on up to m-1, so that it never subscripts a sequence outside its
    bounds. *)
Theorem eager_access_log :
  forall (h : heap) (sequences : list loc),
  sequences <> [] ->
  fst (indices sequences h) = map EvLen sequences /\
  fst (irange sequences h) =
    map EvLen sequences ++
    concat (map (fun k => map (fun r => EvGetItem r (Z.of_nat k)) sequences)
                (seq 0 (common_len h sequences))) /\
  (forall r i, In (EvGetItem r i) (fst (irange sequences h)) ->
     In r sequences /\ 0 <= i < Z.of_nat (length (h r))).
Proof.
  intros h sequences Hne.
  rewrite indices_run, (irange_run _ _ Hne). cbn [fst].
  split; [reflexivity|]. split; [reflexivity|].
  intros r i Hin. apply in_app_or in Hin. destruct Hin as [Hin|Hin].
  - apply in_map_iff in Hin. destruct Hin as (r' & Er' & _). discriminate.
  - apply in_concat in Hin. destruct Hin as (t & Ht & Hin).
    apply in_map_iff in Ht. destruct Ht as (k & <- & Hk).
    apply in_map_iff in Hin. destruct Hin as (r' & Er' & Hr').
    injection Er' as -> <-. apply in_seq in Hk.
    pose proof (common_len_le h sequences r Hr'). split; [exact Hr'|lia].
Qed.

Lemma eager_access_log_witness :
  fst (irange [0%nat; 1%nat] heap_doc) =
  [EvLen 0%nat; EvLen 1%nat;
   EvGetItem 0%nat 0; EvGetItem 1%nat 0; EvGetItem 0%nat 1; EvGetItem 1%nat 1].
Proof.
  assert (Hne : [0%nat; 1%nat] <> []) by discriminate.
  exact (proj1 (proj2 (eager_access_log heap_doc [0%nat; 1%nat] Hne))).
Defined.

(** X5.  The first components of the tuples [irange] returns are, in order,
    the list [indices] returns for the same arguments. *)
Theorem irange_heads_are_indices :
  forall (h : heap) (sequences : list loc),
  sequences <> [] ->
  exists rows ns,
    snd (irange sequences h) = Ok (VList rows) /\
    snd (indices sequences h) = Ok (VList ns) /\
    map tuple_head rows = map Some ns.
Proof.
  intros h sequences Hne. eexists _, _.
  rewrite indices_run, (irange_run _ _ Hne). cbn [snd].
  split; [reflexivity|]. split; [reflexivity|].
  rewrite !map_map. reflexivity.
Qed.

Lemma irange_heads_are_indices_witness :
  exists rows ns,
    snd (irange [0%nat; 1%nat] heap_doc) = Ok (VList rows) /\
    snd (indices [0%nat; 1%nat] heap_doc) = Ok (VList ns) /\
    map tuple_head rows = map Some ns.
Proof.
  apply (irange_heads_are_indices heap_doc [0%nat; 1%nat]). discriminate.
Defined.

(** ** irange and zip *)

Lemma nth_error_combine_pair {X Y} (l : list X) (l' : list Y) (i : nat) :
  nth_error (combine l l') i =
  match nth_error l i, nth_error l' i with
  | Some x, Some y => Some (x, y)
  | _, _ => None
  end.
Proof.
  revert l' i. induction l as [|x l IH]; intros l' i.
  - now destruct i.
  - destruct l' as [|y l']; destruct i as [|i]; cbn [combine nth_error];
      try reflexivity.
    + now destruct (nth_error l i).
    + apply IH.
Qed.

Lemma nth_error_or_default (l : list pyval) (i : nat) :
  nth_error l i =
  if (i <? length l)%nat then Some (nth i l VNone) else None.
Proof.
  destruct (Nat.ltb_spec i (length l)) as [Hlt|Hge].
  - now apply nth_error_nth'.
  - now apply nth_error_None.
Qed.

Lemma zipn_nth_error (ls : list (list pyval)) :
  ls <> [] ->
  forall i,
    nth_error (zipn ls) i =
    if forallb (fun l => (i <? length l)%nat) ls
    then Some (map (fun l => nth i l VNone) ls)
    else None.
Proof.
  induction ls as [|l rest IH]; [congruence|]. intros _ i.
  destruct rest as [|l2 rest'].
  - cbn [zipn forallb map]. rewrite nth_error_map, nth_error_or_default.
    now destruct (i <? length l)%nat.
  - change (zipn (l :: l2 :: rest'))
      with (map (fun p => fst p :: snd p) (combine l (zipn (l2 :: rest')))).
    rewrite nth_error_map, nth_error_combine_pair, nth_error_or_default.
    rewrite IH by discriminate.
    change (forallb (fun l0 => (i <? length l0)%nat) (l :: l2 :: rest'))
      with ((i <? length l)%nat &&
            forallb (fun l0 => (i <? length l0)%nat) (l2 :: rest')).
    destruct (i <? length l)%nat; [|reflexivity].
    now destruct (forallb _ (l2 :: rest')).
Qed.

(** X6.  With at least one sequence, [irange(S1, ..., Sn)] is
    [zip(range(l), S1, ..., Sn)] for l the least of the lengths, the idiom
    the docstring says it stands for. *)
Theorem irange_is_zip :
  forall (h : heap) (sequences : list loc),
  sequences <> [] ->
  snd (irange sequences h) =
  Ok (VList (map VTuple
       (zipn (map VInt (range (Z.of_nat (common_len h sequences)))
              :: map h sequences)))).
Proof.
  intros h sequences Hne. rewrite (irange_run _ _ Hne). cbn [snd].
  do 2 f_equal. rewrite range_of_nat.
  change (map (row_at h sequences) (seq 0 (common_len h sequences)))
    with (map (fun k => VTuple (VInt (Z.of_nat k)
                 :: map (fun r => nth k (h r) VNone) sequences))
              (seq 0 (common_len h sequences))).
  rewrite <- (map_map (fun k => VInt (Z.of_nat k)
                         :: map (fun r => nth k (h r) VNone) sequences)
                      VTuple).
  f_equal. apply nth_error_ext. intros i.
  rewrite zipn_nth_error by discriminate.
  rewrite nth_error_map, nth_error_seq.
  cbn [forallb map]. rewrite !length_map, length_seq.
  destruct (Nat.ltb_spec i (common_len h sequences)) as [Hlt|Hge];
    cbn [andb option_map]; [|reflexivity].
  assert (Hall : forallb (fun l => (i <? length l)%nat) (map h sequences)
                 = true).
  { apply forallb_forall. intros l Hl. apply in_map_iff in Hl.
    destruct Hl as (r & <- & Hr). apply Nat.ltb_lt.
    pose proof (common_len_le h sequences r Hr). lia. }
  rewrite Hall. f_equal. f_equal.
  - rewrite map_map.
    rewrite (nth_indep _ VNone (VInt (Z.of_nat 0)))
      by (now rewrite length_map, length_seq).
    rewrite (map_nth (fun k => VInt (Z.of_nat k))), seq_nth by exact Hlt.
    reflexivity.
  - now rewrite map_map.
Qed.

Lemma irange_is_zip_witness :
  snd (irange [0%nat; 1%nat] heap_doc) =
  Ok (VList (map VTuple
       (zipn [[VInt 0; VInt 1]; [VInt 1; VInt 2; VInt 3];
              [VStr "a"; VStr "b"]]))).
Proof.
  assert (Hne : [0%nat; 1%nat] <> []) by discriminate.
  exact (irange_is_zip heap_doc [0%nat; 1%nat] Hne).
Defined.

(** ** A sequence that gets shorter under xirange *)

Lemma getitem_short h r (k : nat) :
  (length (h r) <= k)%nat ->
  py_getitem r (Z.of_nat k) h = ([EvGetItem r (Z.of_nat k)], Raise IndexError).
Proof.
  intros Hk. unfold py_getitem. cbv zeta.
  replace (Z.of_nat k <? 0) with false by (symmetry; apply Z.ltb_ge; lia).
  replace (Z.of_nat k <? Z.of_nat (length (h r))) with false
    by (symmetry; apply Z.ltb_ge; lia).
  now rewrite andb_false_r.
Qed.

Lemma getitems_short h sequences (k : nat) :
  (exists r, In r sequences /\ (length (h r) <= k)%nat) ->
  exists t,
    list_comp (fun sequence => py_getitem sequence (Z.of_nat k)) sequences h
    = (t, Raise IndexError).
Proof.
  induction sequences as [|r0 rs IH]; intros (r & Hin & Hshort);
    [contradiction|].
  cbn [list_comp].
  destruct (Nat.lt_ge_cases k (length (h r0))) as [Hlt|Hge].
  - destruct IH as (t & Ht).
    { exists r. split; [|exact Hshort].
      destruct Hin as [->|Hin]; [lia | exact Hin]. }
    erewrite bind_ok by (now apply getitem_run).
    erewrite bind_raise by exact Ht. cbn [fst snd]. now eexists.
  - erewrite bind_raise by (now apply getitem_short). now eexists.
Qed.

Lemma xirange_loop_short h sequences (k l : nat) :
  (k < l)%nat ->
  (exists r, In r sequences /\ (length (h r) <= k)%nat) ->
  exists t,
    xirange_loop sequences (RangeIter (Z.of_nat k) (Z.of_nat l)) h =
    (t, Raise IndexError, XI_finished).
Proof.
  intros Hlt Hshort. unfold xirange_loop.
  rewrite rangeiter_next_lt by lia.
  destruct (getitems_short h sequences k Hshort) as (t & Ht).
  unfold row. erewrite bind_raise by exact Ht. now eexists.
Qed.

Lemma drain_suspended_short sequences (l : nat) (env : nat -> heap) (n : nat) :
  forall (a fuel : nat),
  (n < fuel)%nat ->
  (a + n < l)%nat ->
  (forall j r, (a <= j < a + n)%nat -> In r sequences ->
               (j < length (env j r))%nat) ->
  (exists r, In r sequences /\ (length (env (a + n)%nat r) <= a + n)%nat) ->
  drain fuel env a
        (XI_suspended sequences (RangeIter (Z.of_nat a) (Z.of_nat l))) =
  (map (fun j => row_at (env j) sequences j) (seq a n),
   Some IndexError, XI_finished).
Proof.
  induction n as [|n IH]; intros a fuel Hfuel Hl Hread Hshort;
    (destruct fuel as [|fuel]; [lia|]); cbn [drain seq map];
    unfold next, xirange_Iterator; cbn [xirange_next].
  - rewrite Nat.add_0_r in *.
    destruct (xirange_loop_short (env a) sequences a l Hl Hshort) as (t & ->).
    reflexivity.
  - rewrite xirange_loop_yield
      by first [lia | intros r Hr; apply Hread; [lia | exact Hr]].
    rewrite IH; [reflexivity | lia | lia | |].
    + intros j r Hj Hr. apply Hread; [lia | exact Hr].
    + now replace (S a + n)%nat with (a + S n)%nat by lia.
Qed.

(** X7.  [xirange] does not guard its subscriptions: when, after the bound
    was taken at the first request, a sequence has become too short for the
    index [k] that the loop has reached, that request raises IndexError, the
    rows 0..k-1 have been yielded as usual and the generator is finished. *)
Theorem xirange_shrunk_sequence :
  forall (sequences : list loc) (env : nat -> heap) (fuel k : nat),
  (k < common_len (env 0%nat) sequences)%nat ->
  (k < fuel)%nat ->
  (forall j r, (j < k)%nat -> In r sequences -> (j < length (env j r))%nat) ->
  (exists r, In r sequences /\ (length (env k r) <= k)%nat) ->
  drain fuel env 0 (XI_created sequences) =
  (map (fun j => row_at (env j) sequences j) (seq 0 k),
   Some IndexError, XI_finished).
Proof.
  intros sequences env fuel k Hk Hfuel Hread Hshort.
  assert (Hne : sequences <> []).
  { destruct Hshort as (r & Hin & _). intros ->. contradiction. }
  rewrite (drain_created _ _ _ Hne). destruct fuel as [|fuel]; [lia|].
  apply (drain_suspended_short sequences (common_len (env 0%nat) sequences)
           env k 0 (S fuel)); [exact Hfuel | exact Hk | |exact Hshort].
  intros j r Hj Hr. apply Hread; [lia | exact Hr].
Qed.

Lemma xirange_shrunk_sequence_witness :
  drain 5 env_shrinking 0 (XI_created [0%nat]) =
  ([VTuple [VInt 0; VInt 1]], Some IndexError, XI_finished).
Proof.
  assert (Hk : (1 < common_len (env_shrinking 0%nat) [0%nat])%nat)
    by (vm_compute; lia).
  assert (Hfuel : (1 < 5)%nat) by lia.
  assert (Hread : forall j r, (j < 1)%nat -> In r [0%nat] ->
                              (j < length (env_shrinking j r))%nat).
  { intros j r Hj [<-|[]]. destruct j as [|j]; [vm_compute; lia | lia]. }
  assert (Hshort : exists r, In r [0%nat] /\
                             (length (env_shrinking 1%nat r) <= 1)%nat).
  { exists 0%nat. split; [now left | vm_compute; lia]. }
  exact (xirange_shrunk_sequence [0%nat] env_shrinking 5 1
           Hk Hfuel Hread Hshort).
Defined.

(** ** enumerate and the exceptions of its iterator *)

Section EnumerateRaises.

Context {Obj It : Type} `{Iterable Obj It} `{Iterator It pyval}.

Lemma drain_enumerate_suspended_raises h e it es :
  yields_then_raises h e it es ->
  forall (i : Z) (fuel k : nat),
  (length es < fuel)%nat ->
  drain fuel (still h) k (@En_suspended Obj It i it) =
  (number_from (i + 1) es, Some e, En_finished).
Proof.
  induction 1 as [it t it' Hraise|it t v it' es Hitem _ IH];
    intros i fuel k Hfuel; (destruct fuel as [|fuel]; [cbn in Hfuel; lia|]);
    cbn [drain number_from]; unfold next at 1, enumerate_Iterator;
    cbn [enumerate_next]; unfold enumerate_loop, still at 1.
  - now rewrite Hraise.
  - rewrite Hitem. rewrite IH by (cbn in Hfuel; lia). reflexivity.
Qed.

Lemma drain_enumerate_raises h e (sequence : Obj) t it es fuel :
  py_iter sequence h = (t, Ok it) ->
  yields_then_raises h e it es ->
  (length es < fuel)%nat ->
  drain fuel (still h) 0 (En_created sequence) =
  (number_from 0 es, Some e, En_finished).
Proof.
  intros Hiter Hyields Hfuel.
  pose proof (drain_enumerate_suspended_raises h e it es Hyields (-1) fuel 0
                Hfuel) as Hs.
  change (-1 + 1) with 0 in Hs. rewrite <- Hs.
  destruct fuel as [|fuel]; [lia|].
  cbn [drain]. unfold next at 1 2, enumerate_Iterator.
  cbn [enumerate_next]. change (still h 0%nat) with h. rewrite Hiter.
  change (-1 + 1) with 0.
  destruct (@enumerate_loop Obj It _ 0 it h) as [[t' [v|ex]] g'];
    reflexivity.
Qed.

End EnumerateRaises.

Lemma failing_iter_yields h (items : list pyval) (e : exn) :
  yields_then_raises h e (FailingIter items e) items.
Proof.
  induction items as [|v items IH].
  - now apply (ytr_raise h e _ [] (FailingIter [] e)).
  - now apply (ytr_item h e _ [] v (FailingIter items e)).
Qed.

(** X8.  [enumerate] translates no exception: when the iterator of its
    argument gives e0, ..., e(k-1) and then raises [e], whatever [e] is, the
    generator yields (0, e0), ..., (k-1, e(k-1)), then raises that same [e],
    and is finished. *)
Theorem enumerate_propagates :
  forall (Obj It : Type) (IO : Iterable Obj It) (II : Iterator It pyval)
         (sequence : Obj) (h : heap) (t : list event) (it : It)
         (es : list pyval) (e : exn) (fuel : nat),
  py_iter sequence h = (t, Ok it) ->
  yields_then_raises h e it es ->
  (length es < fuel)%nat ->
  drain fuel (still h) 0 (En_created sequence) =
    (number_from 0 es, Some e, En_finished) /\
  stays_exhausted (@En_finished Obj It).
Proof.
  intros Obj It IO II sequence h t it es e fuel Hiter Hyields Hfuel.
  pose proof (drain_enumerate_raises h e sequence t it es fuel
                Hiter Hyields Hfuel) as Hd.
  split; [exact Hd|].
  exact (drained_stays_exhausted (IG := enumerate_Iterator) enumerate_closes
           _ _ _ _ _ _ _ Hd).
Qed.

Lemma enumerate_propagates_witness :
  drain 3 (still heap_doc) 0
        (En_created (FailingIter [VStr "x"; VStr "y"] ValueError)) =
  ([VTuple [VInt 0; VStr "x"]; VTuple [VInt 1; VStr "y"]],
   Some ValueError, En_finished).
Proof.
  assert (Hfuel : (length [VStr "x"; VStr "y"] < 3)%nat) by (cbn; lia).
  exact (proj1
           (enumerate_propagates failing_iter failing_iter failing_Iterable
              failing_Iterator (FailingIter [VStr "x"; VStr "y"] ValueError)
              heap_doc [] (FailingIter [VStr "x"; VStr "y"] ValueError)
              [VStr "x"; VStr "y"] ValueError 3%nat eq_refl
              (failing_iter_yields heap_doc [VStr "x"; VStr "y"] ValueError)
              Hfuel)).
Defined.

(** ** enumerate and xirange on one list *)

Lemma number_from_nth (l : list pyval) : forall i : Z,
  number_from i l =
  map (fun j => VTuple [VInt (i + Z.of_nat j); nth j l VNone])
      (seq 0 (length l)).
Proof.
  induction l as [|x l IH]; intros i; [reflexivity|].
  cbn [number_from length seq map nth]. rewrite Z.add_0_r. f_equal.
  rewrite IH, <- seq_shift, map_map. apply map_ext. intros j.
  cbn [nth]. do 3 f_equal. lia.
Qed.

(** X9.  On one list that is left alone, [enumerate] and [xirange] yield the
    same tuples, (0, s[0]), (1, s[1]), ..., one for each item, and then end;
    these are the tuples of the list [irange] returns. *)
Theorem enumerate_list_is_xirange :
  forall (h : heap) (r : loc) (fuel : nat),
  (length (h r) < fuel)%nat ->
  fst (drain fuel (still h) 0 (@En_created pyobj listiter (OSeq r))) =
    fst (drain fuel (still h) 0 (XI_created [r])) /\
  fst (drain fuel (still h) 0 (XI_created [r])) =
    (number_from 0 (h r), Some StopIteration) /\
  snd (irange [r] h) = Ok (VList (number_from 0 (h r))).
Proof.
  intros h r fuel Hfuel.
  assert (Hne : [r] <> []) by discriminate.
  assert (Hrows : map (row_at h [r]) (seq 0 (common_len h [r])) =
                  number_from 0 (h r)).
  { rewrite number_from_nth. reflexivity. }
  rewrite (@drain_enumerate pyobj listiter pyobj_Iterable listiter_Iterator
             h (OSeq r) [] (ListIter (Some r) 0) (h r) fuel
             eq_refl (listiter_yields h r 0) Hfuel).
  rewrite (drain_xirange_still [r] fuel h Hne Hfuel).
  rewrite (irange_run _ _ Hne). cbn [fst snd]. rewrite Hrows.
  repeat split.
Qed.

Lemma enumerate_list_is_xirange_witness :
  fst (drain 4 (still heap_xyz) 0 (@En_created pyobj listiter (OSeq 0%nat))) =
  fst (drain 4 (still heap_xyz) 0 (XI_created [0%nat])).
Proof.
  assert (Hfuel : (length (heap_xyz 0%nat) < 4)%nat) by (vm_compute; lia).
  exact (proj1 (enumerate_list_is_xirange heap_xyz 0%nat 4%nat Hfuel)).
Defined.

(** ** enumerate on a list that changes *)

Lemma drain_enumerate_live (r : loc) (env : nat -> heap) (n : nat) :
  forall (a fuel : nat),
  (n < fuel)%nat ->
  (forall k, (a <= k < a + n)%nat -> (k < length (env k r))%nat) ->
  (length (env (a + n)%nat r) <= a + n)%nat ->
  drain fuel env a
        (@En_suspended pyobj listiter (Z.of_nat a - 1) (ListIter (Some r) a)) =
  (map (fun k => VTuple [VInt (Z.of_nat k); nth k (env k r) VNone]) (seq a n),
   Some StopIteration, En_finished).
Proof.
  induction n as [|n IH]; intros a fuel Hfuel Hread Hend;
    (destruct fuel as [|fuel]; [lia|]); cbn [drain seq map];
    unfold next at 1, enumerate_Iterator at 1; cbn [enumerate_next];
    unfold enumerate_loop;
    change (@next listiter pyval listiter_Iterator) with listiter_next;
    unfold listiter_next; cbn [li_seq li_index].
  - rewrite Nat.add_0_r in Hend.
    now rewrite (proj2 (nth_error_None (env a r) a) Hend).
  - rewrite (nth_error_nth' (env a r) VNone) by (apply Hread; lia).
    assert (IH' := IH (S a) fuel).
    replace (Z.of_nat (S a) - 1) with (Z.of_nat a - 1 + 1) in IH' by lia.
    rewrite IH'.
    + now replace (Z.of_nat a - 1 + 1) with (Z.of_nat a) by lia.
    + lia.
    + intros k Hk. apply Hread. lia.
    + now replace (S a + n)%nat with (a + S n)%nat by lia.
Qed.

(** X10.  [enumerate] takes no bound in advance: over a list, each request
    reads the list as it is at that moment, so that items appended while the
    iteration is under way are yielded too; the generator ends at the first
    request that finds the list no longer than the count of the items
    already yielded. *)
Theorem enumerate_follows_list :
  forall (r : loc) (env : nat -> heap) (n fuel : nat),
  (n < fuel)%nat ->
  (forall k, (k < n)%nat -> (k < length (env k r))%nat) ->
  (length (env n r) <= n)%nat ->
  drain fuel env 0 (@En_created pyobj listiter (OSeq r)) =
  (map (fun k => VTuple [VInt (Z.of_nat k); nth k (env k r) VNone]) (seq 0 n),
   Some StopIteration, En_finished).
Proof.
  intros r env n fuel Hfuel Hread Hend.
  rewrite <- (drain_enumerate_live r env n 0 fuel Hfuel);
    [| intros k Hk; apply Hread; lia | exact Hend].
  destruct fuel as [|fuel]; [lia|].
  cbn [drain]. unfold next at 1 2, enumerate_Iterator.
  cbn [enumerate_next py_iter pyobj_Iterable ret].
  change (Z.of_nat 0 - 1 + 1) with 0.
  destruct (@enumerate_loop pyobj listiter _ 0 (ListIter (Some r) 0) (env 0%nat))
    as [[t' [v|ex]] g']; reflexivity.
Qed.

Lemma enumerate_follows_list_witness :
  drain 5 (fun k => if (k =? 0)%nat then heap_two else heap_three) 0
        (@En_created pyobj listiter (OSeq 0%nat)) =
  ([VTuple [VInt 0; VInt 1]; VTuple [VInt 1; VInt 2]; VTuple [VInt 2; VInt 3]],
   Some StopIteration, En_finished).
Proof.
  assert (Hfuel : (3 < 5)%nat) by lia.
  assert (Hread : forall k, (k < 3)%nat ->
            (k < length ((if (k =? 0)%nat then heap_two else heap_three)
                           0%nat))%nat).
  { intros k Hk. destruct k as [|[|[|k]]]; [vm_compute; lia .. | lia]. }
  assert (Hend : (length ((if (3 =? 0)%nat then heap_two else heap_three)
                            0%nat) <= 3)%nat) by (vm_compute; lia).
  exact (enumerate_follows_list 0%nat
           (fun k => if (k =? 0)%nat then heap_two else heap_three)
           3 5 Hfuel Hread Hend).
Defined.
